(** * Unified Calendar Scheduler backend: event repository, account
      directory and temporal views

    A shallow embedding of [src/api/main.py] and [src/api/models.py].

    - The two [JsonStore] files are modelled by the list kept under their
      ["items"] key (insertion order, duplicates possible); the ["meta"]
      stamp is never touched by a handler and is left out.  A handler that
      writes takes the list and returns the new list next to its response.
    - A raised [HTTPException] is an [error] with its status code; any other
      exception that escapes a handler ([TypeError], a pydantic error raised
      while building the response model) is [InternalError], the 500 the
      framework answers with.
    - [uuid.uuid4()] and [datetime.now(timezone.utc)] are inputs of the
      handlers that call them.
    - Handlers are modelled after [Depends(get_current_user_id)] has
      produced the caller's [user_id].
    - Record fields carry the key or attribute name of the source behind a
      prefix naming the dict or model ([ev_] stored event, [usr_] stored
      user, [b_] request body, [c_] [EventCreate], [u_] [EventUpdate],
      [out_] [EventOut]). *)

From Stdlib Require Import ZArith Lia.
From stdpp Require Import base option list strings.

Local Open Scope Z_scope.

(** ** Errors and results *)

Inductive error : Type :=
  | Unauthorized      (* HTTPException 401 *)
  | Conflict          (* HTTPException 409 *)
  | InvalidRange      (* HTTPException 400, "end must be after start" *)
  | NotFound          (* HTTPException 404 *)
  | ValidationError   (* request model or query validation, 422 *)
  | InternalError.    (* uncaught exception, 500 *)

Definition status_code (e : error) : Z :=
  match e with
  | Unauthorized => 401
  | Conflict => 409
  | InvalidRange => 400
  | NotFound => 404
  | ValidationError => 422
  | InternalError => 500
  end.

Inductive result (A : Type) : Type :=
  | Ok (a : A)
  | Err (e : error).
Arguments Ok {A} a.
Arguments Err {A} e.

#[global] Instance result_ret : MRet result := λ A a, Ok a.

#[global] Instance result_bind : MBind result := λ A B k r,
  match r with
  | Ok a => k a
  | Err e => Err e
  end.

Fixpoint traverse {A B} (f : A → result B) (l : list A) : result (list B) :=
  match l with
  | [] => Ok []
  | a :: l' => b ← f a; bs ← traverse f l'; Ok (b :: bs)
  end.

(** ** Dates and datetimes

    A Python [datetime] is a wall-clock reading together with an optional
    fixed UTC offset.  [wall] counts the microseconds of the reading since
    0001-01-01T00:00:00; [tzinfo] is [None] for a naive datetime and
    [Some off] ([off] in microseconds) for an aware one. *)

Record datetime : Type := mk_datetime { wall : Z; tzinfo : option Z }.

Record date : Type := mk_date { year : Z; month : Z; day : Z }.

Definition US_PER_DAY : Z := 86400 * 1000000.
Definition MAXORDINAL : Z := 3652059.   (* date(9999, 12, 31).toordinal() *)

(** [a < b]: both naive compares the readings, both aware compares the
    instants, mixing the two raises [TypeError] ([None]). *)
Definition dt_lt (a b : datetime) : option bool :=
  match tzinfo a, tzinfo b with
  | None, None => Some (wall a <? wall b)
  | Some oa, Some ob => Some (wall a - oa <? wall b - ob)
  | _, _ => None
  end.

Definition dt_gt (a b : datetime) : option bool := dt_lt b a.

Definition dt_le (a b : datetime) : option bool :=
  match tzinfo a, tzinfo b with
  | None, None => Some (wall a <=? wall b)
  | Some oa, Some ob => Some (wall a - oa <=? wall b - ob)
  | _, _ => None
  end.

(** Proleptic Gregorian ordinal of a date, as [datetime.py] computes it. *)
Definition is_leap (y : Z) : bool :=
  (y mod 4 =? 0) && (negb (y mod 100 =? 0) || (y mod 400 =? 0)).

Definition days_before_year (y : Z) : Z :=
  let y' := y - 1 in y' * 365 + y' / 4 - y' / 100 + y' / 400.

Definition days_in_month (y m : Z) : Z :=
  if (m =? 2) && is_leap y then 29
  else match m with
       | 1 | 3 | 5 | 7 | 8 | 10 | 12 => 31
       | 4 | 6 | 9 | 11 => 30
       | 2 => 28
       | _ => 0
       end.

Definition days_before_month (y m : Z) : Z :=
  match m with
  | 2 => 31 | 3 => 59 | 4 => 90 | 5 => 120 | 6 => 151 | 7 => 181
  | 8 => 212 | 9 => 243 | 10 => 273 | 11 => 304 | 12 => 334
  | _ => 0
  end
  + (if (2 <? m) && is_leap y then 1 else 0).

Definition ymd2ord (d : date) : Z :=
  days_before_year (year d) + days_before_month (year d) (month d) + day d.

(** What the [date] constructor accepts. *)
Definition valid_date (d : date) : bool :=
  (1 <=? year d) && (year d <=? 9999) && (1 <=? month d) && (month d <=? 12)
  && (1 <=? day d) && (day d <=? days_in_month (year d) (month d)).

(** [datetime.combine(d, datetime.min.time(), tzinfo=timezone.utc)] *)
Definition midnight_utc (d : date) : datetime :=
  mk_datetime ((ymd2ord d - 1) * US_PER_DAY) (Some 0).

(** [dt + timedelta(days=n)]; [OverflowError] past year 9999. *)
Definition add_days (dt : datetime) (n : Z) : result datetime :=
  let w := wall dt + n * US_PER_DAY in
  if (0 <=? w) && (w <? MAXORDINAL * US_PER_DAY)
  then Ok (mk_datetime w (tzinfo dt))
  else Err InternalError.

(** [datetime.now(timezone.utc)] when the clock reads [now_us]. *)
Definition now_utc (now_us : Z) : datetime := mk_datetime now_us (Some 0).


(** The text [dt.isoformat()] produces.  [datetime.fromisoformat] is its
    inverse and JSON keeps strings as they are, so the text is represented
    by the datetime it denotes. *)
Inductive isotext : Type := IsoText (dt : datetime).

Definition isoformat (dt : datetime) : isotext := IsoText dt.

(** [datetime.fromisoformat(x)]; [TypeError] when [x] is [None]. *)
Definition fromisoformat (x : option isotext) : result datetime :=
  match x with
  | Some (IsoText dt) => Ok dt
  | None => Err InternalError
  end.

(** ** Request and response models ([models.py])

    A field of a JSON request body is represented as missing, [null], or a
    value of the declared type, the value pydantic hands to the model.  A
    body carrying a value pydantic cannot take for a field is answered 422
    by the framework and has no representation here: the validation below
    says what becomes of a well-typed body, not which bodies are
    refused. *)

Inductive field (A : Type) : Type :=
  | Unset
  | Null
  | Val (a : A).
Arguments Unset {A}.
Arguments Null {A}.
Arguments Val {A} a.

(** [Field(..., ...)] of a non-optional type: required, [null] rejected. *)
Definition required {A} (f : field A) : result A :=
  match f with
  | Val a => Ok a
  | _ => Err ValidationError
  end.

(** [Optional[T] = Field(None, ...)] *)
Definition optional {A} (f : field A) : option A :=
  match f with
  | Val a => Some a
  | _ => None
  end.

(** [T = Field(default, ...)] of a non-optional type. *)
Definition with_default {A} (d : A) (f : field A) : result A :=
  match f with
  | Unset => Ok d
  | Null => Err ValidationError
  | Val a => Ok a
  end.

(** [ge=0, le=10080] on [reminder_minutes_before]. *)
Definition reminder_ok (r : option Z) : bool :=
  match r with
  | None => true
  | Some m => (0 <=? m) && (m <=? 10080)
  end.

Record SignupRequest : Type := mk_SignupRequest {
  su_email : string;
  su_password : string
}.

Record AuthResponse : Type := mk_AuthResponse {
  access_token : string;
  token_type : string
}.

(** The JSON body of [POST /events]. *)
Record EventBody : Type := mk_EventBody {
  b_title : field string;
  b_description : field string;
  b_start : field datetime;
  b_end : field datetime;
  b_all_day : field bool;
  b_reminder_minutes_before : field Z
}.

Record EventCreate : Type := mk_EventCreate {
  c_title : string;
  c_description : option string;
  c_start : datetime;
  c_end : datetime;
  c_all_day : bool;
  c_reminder_minutes_before : option Z
}.

Definition validate_EventCreate (b : EventBody) : result EventCreate :=
  title ← required (b_title b);
  start ← required (b_start b);
  end_ ← required (b_end b);
  all_day ← with_default false (b_all_day b);
  let reminder := optional (b_reminder_minutes_before b) in
  if reminder_ok reminder
  then Ok (mk_EventCreate title (optional (b_description b)) start end_
             all_day reminder)
  else Err ValidationError.

(** [EventUpdate]: every field is [Optional] with default [None]; the model
    remembers which fields the body set ([model_dump(exclude_unset=True)]
    lists exactly those, a field set to [null] included). *)
Record EventUpdate : Type := mk_EventUpdate {
  u_title : field string;
  u_description : field string;
  u_start : field datetime;
  u_end : field datetime;
  u_all_day : field bool;
  u_reminder_minutes_before : field Z
}.

Record EventOut : Type := mk_EventOut {
  out_title : string;
  out_description : option string;
  out_start : datetime;
  out_end : datetime;
  out_all_day : bool;
  out_reminder_minutes_before : option Z;
  out_id : string;
  out_user_id : string;
  out_created_at : datetime;
  out_updated_at : datetime
}.

(** ** Stored records

    An event as the dict kept in [events.json].  [update_event] writes
    whatever the body set, so [title], [start], [end] and [all_day] can hold
    [None] in a merged dict although [create_event] never stores one. *)
Record event : Type := mk_event {
  ev_id : string;
  ev_user_id : string;
  ev_title : option string;
  ev_description : option string;
  ev_start : option isotext;
  ev_end : option isotext;
  ev_all_day : option bool;
  ev_reminder_minutes_before : option Z;
  ev_created_at : isotext;
  ev_updated_at : isotext
}.

Record user : Type := mk_user {
  usr_id : string;
  usr_email : string;
  usr_password_hash : string;
  usr_created_at : isotext
}.

(** ** Event repository ([main.py]) *)

Definition _list_events_for_user (user_id : string) (items : list event)
  : list event :=
  filter (λ e, ev_user_id e = user_id) items.

(** Building the response model validates it: [title] must be a string and
    the reminder within its bounds, and [fromisoformat] wants text. *)
Definition _event_dict_to_out (e : event) : result EventOut :=
  title ← from_option Ok (Err InternalError) (ev_title e);
  start ← fromisoformat (ev_start e);
  end_ ← fromisoformat (ev_end e);
  created_at ← fromisoformat (Some (ev_created_at e));
  updated_at ← fromisoformat (Some (ev_updated_at e));
  if reminder_ok (ev_reminder_minutes_before e)
  then Ok {| out_id := ev_id e;
             out_user_id := ev_user_id e;
             out_title := title;
             out_description := ev_description e;
             out_start := start;
             out_end := end_;
             out_all_day := default false (ev_all_day e);
             out_reminder_minutes_before := ev_reminder_minutes_before e;
             out_created_at := created_at;
             out_updated_at := updated_at |}
  else Err InternalError.

(** [create_event]; [now_us] is the clock, [event_id] the fresh uuid. *)
Definition create_event (payload : EventCreate) (user_id : string)
    (now_us : Z) (event_id : string) (items : list event)
  : list event * result EventOut :=
  match dt_lt (c_end payload) (c_start payload) with
  | None => (items, Err InternalError)
  | Some true => (items, Err InvalidRange)
  | Some false =>
      let now := now_utc now_us in
      let event :=
        {| ev_id := event_id;
           ev_user_id := user_id;
           ev_title := Some (c_title payload);
           ev_description := c_description payload;
           ev_start := Some (isoformat (c_start payload));
           ev_end := Some (isoformat (c_end payload));
           ev_all_day := Some (c_all_day payload);
           ev_reminder_minutes_before := c_reminder_minutes_before payload;
           ev_created_at := isoformat now;
           ev_updated_at := isoformat now |} in
      (items ++ [event], _event_dict_to_out event)
  end.

Definition list_events (user_id : string) (items : list event)
  : result (list EventOut) :=
  traverse _event_dict_to_out (_list_events_for_user user_id items).

Definition get_event (event_id user_id : string) (items : list event)
  : result EventOut :=
  match list_find (λ e, ev_id e = event_id)
          (_list_events_for_user user_id items) with
  | Some (_, e) => _event_dict_to_out e
  | None => Err NotFound
  end.

(** [merged[k] = v] for one key of the dumped payload. *)
Definition merge_field {A B} (f : field A) (conv : A → B) (old : option B)
  : option B :=
  match f with
  | Unset => old
  | Null => None
  | Val a => Some (conv a)
  end.

(** [merged = dict(e)] followed by the loop over the fields the body set. *)
Definition merge (e : event) (payload : EventUpdate) : event :=
  {| ev_id := ev_id e;
     ev_user_id := ev_user_id e;
     ev_title := merge_field (u_title payload) id (ev_title e);
     ev_description := merge_field (u_description payload) id (ev_description e);
     ev_start := merge_field (u_start payload) isoformat (ev_start e);
     ev_end := merge_field (u_end payload) isoformat (ev_end e);
     ev_all_day := merge_field (u_all_day payload) id (ev_all_day e);
     ev_reminder_minutes_before :=
       merge_field (u_reminder_minutes_before payload) id
         (ev_reminder_minutes_before e);
     ev_created_at := ev_created_at e;
     ev_updated_at := ev_updated_at e |}.

Definition set_updated_at (e : event) (now : isotext) : event :=
  {| ev_id := ev_id e;
     ev_user_id := ev_user_id e;
     ev_title := ev_title e;
     ev_description := ev_description e;
     ev_start := ev_start e;
     ev_end := ev_end e;
     ev_all_day := ev_all_day e;
     ev_reminder_minutes_before := ev_reminder_minutes_before e;
     ev_created_at := ev_created_at e;
     ev_updated_at := now |}.

(** The key both [update_event] and [delete_event] select on. *)
Definition owned_by (event_id user_id : string) (e : event) : Prop :=
  ev_id e = event_id ∧ ev_user_id e = user_id.

#[global] Instance owned_by_dec event_id user_id e :
  Decision (owned_by event_id user_id e).
Proof. unfold owned_by. apply _. Defined.

(** [update_event]: the loop stops at the first dict matching id and owner
    ([list_find]); a raise inside the loop leaves the file as it was, and
    the response model is built after [write_all]. *)
Definition update_event (event_id : string) (payload : EventUpdate)
    (user_id : string) (now_us : Z) (items : list event)
  : list event * result EventOut :=
  let now := isoformat (now_utc now_us) in
  match list_find (owned_by event_id user_id) items with
  | None => (items, Err NotFound)
  | Some (idx, e) =>
      let merged := merge e payload in
      match fromisoformat (ev_start merged) with
      | Err x => (items, Err x)
      | Ok start_dt =>
          match fromisoformat (ev_end merged) with
          | Err x => (items, Err x)
          | Ok end_dt =>
              match dt_lt end_dt start_dt with
              | None => (items, Err InternalError)
              | Some true => (items, Err InvalidRange)
              | Some false =>
                  let updated := set_updated_at merged now in
                  (<[idx := updated]> items, _event_dict_to_out updated)
              end
          end
      end
  end.

Inductive Deleted : Type := deleted_true.

Definition delete_event (event_id user_id : string) (items : list event)
  : list event * result Deleted :=
  let new_items := filter (λ e, ¬ owned_by event_id user_id e) items in
  if decide (length new_items = length items)
  then (items, Err NotFound)
  else (new_items, Ok deleted_true).

(** [POST /events] for a well-typed body: the body is validated, then the
    handler runs. *)
Definition post_events (body : EventBody) (user_id : string) (now_us : Z)
    (event_id : string) (items : list event) : list event * result EventOut :=
  match validate_EventCreate body with
  | Ok payload => create_event payload user_id now_us event_id items
  | Err x => (items, Err x)
  end.

(** ** Temporal views *)

Fixpoint _range_filter (events : list event) (start_dt end_dt : datetime)
  : result (list event) :=
  match events with
  | [] => Ok []
  | e :: rest =>
      e_start ← fromisoformat (ev_start e);
      e_end ← fromisoformat (ev_end e);
      match dt_lt e_start end_dt with
      | None => Err InternalError
      | Some false => _range_filter rest start_dt end_dt
      | Some true =>
          match dt_gt e_end start_dt with
          | None => Err InternalError
          | Some false => _range_filter rest start_dt end_dt
          | Some true =>
              out ← _range_filter rest start_dt end_dt; Ok (e :: out)
          end
      end
  end.

(** The two closing lines the three view handlers share. *)
Definition view (user_id : string) (start_dt end_dt : datetime)
    (items : list event) : result (list EventOut) :=
  events ← _range_filter (_list_events_for_user user_id items) start_dt end_dt;
  traverse _event_dict_to_out events.

Definition day_view (day : date) (user_id : string) (items : list event)
  : result (list EventOut) :=
  if valid_date day then
    let start_dt := midnight_utc day in
    end_dt ← add_days start_dt 1;
    view user_id start_dt end_dt items
  else Err ValidationError.

Definition week_view (week_start : date) (user_id : string)
    (items : list event) : result (list EventOut) :=
  if valid_date week_start then
    let start_dt := midnight_utc week_start in
    end_dt ← add_days start_dt 7;
    view user_id start_dt end_dt items
  else Err ValidationError.

(** The window of [month_view], after [Query(ge=1970, le=2100)] and
    [Query(ge=1, le=12)] have accepted [year] and [month]. *)
Definition month_window (year month : Z) : datetime * datetime :=
  let start_day := mk_date year month 1 in
  let next_month :=
    if month =? 12 then mk_date (year + 1) 1 1
    else mk_date year (month + 1) 1 in
  (midnight_utc start_day, midnight_utc next_month).

Definition month_view (year month : Z) (user_id : string)
    (items : list event) : result (list EventOut) :=
  if (1970 <=? year) && (year <=? 2100) && (1 <=? month) && (month <=? 12)
  then
    let '(start_dt, end_dt) := month_window year month in
    view user_id start_dt end_dt items
  else Err ValidationError.

(** ** Account directory

    What the handlers take from outside the repository: [str.lower], the
    password hasher of [passlib] and the token encoder of [jwt], the latter
    already applied to [settings.access_token_exp_minutes]. *)
Class Runtime : Type := {
  lower : string → string;
  hash_password : string → string;
  verify_password : string → string → bool;
  create_access_token : string → string
}.

Section AccountDirectory.
Context `{Runtime}.

Definition same_email (email : string) (u : user) : Prop :=
  lower (usr_email u) = lower email.

#[global] Instance same_email_dec email u : Decision (same_email email u).
Proof. unfold same_email. apply _. Defined.

Definition _get_user_by_email (email : string) (users : list user)
  : option user :=
  snd <$> list_find (same_email email) users.

Definition _get_user_by_id (user_id : string) (users : list user)
  : option user :=
  snd <$> list_find (λ u, usr_id u = user_id) users.

Definition _persist_user (u : user) (users : list user) : list user :=
  users ++ [u].

(** [signup]; [user_id] is the fresh uuid, [now_us] the clock. *)
Definition signup (payload : SignupRequest) (user_id : string) (now_us : Z)
    (users : list user) : list user * result AuthResponse :=
  match _get_user_by_email (su_email payload) users with
  | Some _ => (users, Err Conflict)
  | None =>
      let u :=
        {| usr_id := user_id;
           usr_email := su_email payload;
           usr_password_hash := hash_password (su_password payload);
           usr_created_at := isoformat (now_utc now_us) |} in
      (_persist_user u users,
       Ok (mk_AuthResponse (create_access_token user_id) "bearer"))
  end.

Definition login (email password : string) (users : list user)
  : result AuthResponse :=
  match _get_user_by_email email users with
  | Some u =>
      if verify_password password (usr_password_hash u)
      then Ok (mk_AuthResponse (create_access_token (usr_id u)) "bearer")
      else Err Unauthorized
  | None => Err Unauthorized
  end.

Definition me (user_id : string) (users : list user)
  : result (string * string) :=
  match _get_user_by_id user_id users with
  | Some u => Ok (usr_id u, usr_email u)
  | None => Err Unauthorized
  end.

End AccountDirectory.

(** An executable runtime for the examples: ASCII lower-casing, and
    stand-ins for the hasher and the token encoder. *)
Definition ascii_lower_char (c : Ascii.ascii) : Ascii.ascii :=
  let n := Ascii.nat_of_ascii c in
  if decide (65 ≤ n ≤ 90)%nat then Ascii.ascii_of_nat (n + 32) else c.

Fixpoint ascii_lower (s : string) : string :=
  match s with
  | EmptyString => EmptyString
  | String c s' => String (ascii_lower_char c) (ascii_lower s')
  end.

Definition ascii_runtime : Runtime :=
  {| lower := ascii_lower;
     hash_password := λ p, String.append "hash:" p;
     verify_password := λ p h, bool_decide (String.append "hash:" p = h);
     create_access_token := λ sub, String.append "token:" sub |}.

(** ** Vocabulary of the statements *)

(** Event ids are unique in the collection (they are [uuid4] values). *)
Definition unique_ids (items : list event) : Prop :=
  NoDup (ev_id <$> items).

(** [event.start < windowEnd AND event.end > windowStart] *)
Definition overlaps (start_dt end_dt : datetime) (e : event) : bool :=
  match ev_start e, ev_end e with
  | Some (IsoText s), Some (IsoText t) =>
      bool_decide (dt_lt s end_dt = Some true)
      && bool_decide (dt_gt t start_dt = Some true)
  | _, _ => false
  end.

(** Both datetimes naive or both aware: [<] between them does not raise. *)
Definition comparable (a b : datetime) : bool :=
  bool_decide (is_Some (tzinfo a) ↔ is_Some (tzinfo b)).

(** The record holds start and end texts that compare with the window. *)
Definition timed_for (start_dt end_dt : datetime) (e : event) : bool :=
  match ev_start e, ev_end e with
  | Some (IsoText s), Some (IsoText t) =>
      comparable s end_dt && comparable start_dt t
  | _, _ => false
  end.

(** A stored record that reads back as an event of the data model: the
    response model can be built from it and its start is not after its
    end. *)
Definition well_formed (e : event) : Prop :=
  ∃ out, _event_dict_to_out e = Ok out
         ∧ dt_le (out_start out) (out_end out) = Some true.

(** The month after [(year, month)]. *)
Definition next_month (year month : Z) : Z * Z :=
  if month =? 12 then (year + 1, 1) else (year, month + 1).

(** The caller's events that [month_view] keeps for a month: [month_view]
    up to the building of the responses, its parameter check included. *)
Definition month_events (year month : Z) (user_id : string)
    (items : list event) : result (list event) :=
  if (1970 <=? year) && (year <=? 2100) && (1 <=? month) && (month <=? 12)
  then _range_filter (_list_events_for_user user_id items)
         (month_window year month).1 (month_window year month).2
  else Err ValidationError.

(** An update body that sets nothing. *)
Definition no_fields : EventUpdate :=
  mk_EventUpdate Unset Unset Unset Unset Unset Unset.

(** Concrete data for the examples. *)
Definition utc_at (y m d hh mm : Z) : datetime :=
  mk_datetime ((ymd2ord (mk_date y m d) - 1) * US_PER_DAY
               + (hh * 3600 + mm * 60) * 1000000) (Some 0).

Definition naive_at (y m d hh mm : Z) : datetime :=
  mk_datetime ((ymd2ord (mk_date y m d) - 1) * US_PER_DAY
               + (hh * 3600 + mm * 60) * 1000000) None.

Definition sample_event (id_ owner title : string) (s t : datetime) : event :=
  {| ev_id := id_; ev_user_id := owner; ev_title := Some title;
     ev_description := None;
     ev_start := Some (isoformat s); ev_end := Some (isoformat t);
     ev_all_day := Some false; ev_reminder_minutes_before := None;
     ev_created_at := isoformat (utc_at 2024 1 1 0 0);
     ev_updated_at := isoformat (utc_at 2024 1 1 0 0) |}.

Definition standup : event :=
  sample_event "e1" "alice" "Standup"
    (utc_at 2024 1 1 9 0) (utc_at 2024 1 1 9 30).

Definition review : event :=
  sample_event "e2" "bob" "Review"
    (utc_at 2024 1 2 14 0) (utc_at 2024 1 2 15 0).

Definition standup_body : EventBody :=
  mk_EventBody (Val "Standup") Unset (Val (utc_at 2024 1 1 9 0))
    (Val (utc_at 2024 1 1 9 30)) Unset Unset.

Definition untitled_body : EventBody :=
  mk_EventBody (Val "") Unset (Val (utc_at 2024 1 1 9 0))
    (Val (utc_at 2024 1 1 9 30)) Unset Unset.

(** Two events of New Year's Eve 2024: one ends on the first instant of
    2025, the other an hour into it. *)
Definition countdown : event :=
  sample_event "e3" "alice" "Countdown"
    (utc_at 2024 12 31 23 0) (utc_at 2025 1 1 0 0).

Definition party : event :=
  sample_event "e4" "alice" "Party"
    (utc_at 2024 12 31 23 0) (utc_at 2025 1 1 1 0).

Definition brunch : event :=
  sample_event "e5" "alice" "Brunch"
    (utc_at 2025 1 1 0 0) (utc_at 2025 1 1 1 0).

(** A response with its [updated_at] replaced. *)
Definition refreshed (out : EventOut) (now : datetime) : EventOut :=
  {| out_title := out_title out;
     out_description := out_description out;
     out_start := out_start out;
     out_end := out_end out;
     out_all_day := out_all_day out;
     out_reminder_minutes_before := out_reminder_minutes_before out;
     out_id := out_id out;
     out_user_id := out_user_id out;
     out_created_at := out_created_at out;
     out_updated_at := now |}.

Definition only_start (new_start : datetime) : EventUpdate :=
  mk_EventUpdate Unset Unset (Val new_start) Unset Unset Unset.

Definition only_end (new_end : datetime) : EventUpdate :=
  mk_EventUpdate Unset Unset Unset (Val new_end) Unset Unset.

Definition only_title (new_title : string) : EventUpdate :=
  mk_EventUpdate (Val new_title) Unset Unset Unset Unset Unset.

Definition standup_out : EventOut :=
  {| out_title := "Standup"; out_description := None;
     out_start := utc_at 2024 1 1 9 0; out_end := utc_at 2024 1 1 9 30;
     out_all_day := false; out_reminder_minutes_before := None;
     out_id := "e1"; out_user_id := "alice";
     out_created_at := utc_at 2024 1 1 0 0;
     out_updated_at := utc_at 2024 1 1 0 0 |}.

Definition standup_payload : EventCreate :=
  mk_EventCreate "Standup" None (utc_at 2024 1 1 9 0) (utc_at 2024 1 1 9 30)
    false None.

Definition untitled_payload : EventCreate :=
  mk_EventCreate "" None (utc_at 2024 1 1 9 0) (utc_at 2024 1 1 9 30)
    false None.

(** The instant lies within the extent of the event:
    start ≤ instant ≤ end. *)
Definition spans_into (e : event) (instant : datetime) : Prop :=
  ∃ s t, ev_start e = Some (isoformat s) ∧ ev_end e = Some (isoformat t)
         ∧ dt_le s instant = Some true ∧ dt_le instant t = Some true.

Definition title_null : EventUpdate :=
  mk_EventUpdate Null Unset Unset Unset Unset Unset.

(** [standup] after its title was set to [null] at clock reading 7. *)
Definition standup_untitled : event :=
  {| ev_id := "e1"; ev_user_id := "alice"; ev_title := None;
     ev_description := None;
     ev_start := Some (isoformat (utc_at 2024 1 1 9 0));
     ev_end := Some (isoformat (utc_at 2024 1 1 9 30));
     ev_all_day := Some false; ev_reminder_minutes_before := None;
     ev_created_at := isoformat (utc_at 2024 1 1 0 0);
     ev_updated_at := isoformat (now_utc 7) |}.

(** An event entered without a UTC offset. *)
Definition lunch_naive : event :=
  sample_event "e6" "alice" "Lunch"
    (naive_at 2024 1 1 12 0) (naive_at 2024 1 1 13 0).

(** ** Vocabulary of the further properties *)

(** The record carries start and end texts with start not after end. *)
Definition in_range (e : event) : Prop :=
  ∃ s t, ev_start e = Some (isoformat s) ∧ ev_end e = Some (isoformat t)
         ∧ dt_le s t = Some true.

(** The response model can be built from the record. *)
Definition readable (e : event) : Prop :=
  ∃ out, _event_dict_to_out e = Ok out.

(** What identifies a stored event: id, owner and creation stamp. *)
Definition identity_of (e : event) : string * string * isotext :=
  (ev_id e, ev_user_id e, ev_created_at e).

(** No two accounts share an email up to letter case. *)
Definition unique_emails `{Runtime} (users : list user) : Prop :=
  NoDup ((λ u, lower (usr_email u)) <$> users).

(** ** Settings ([core/settings.py])

    A Python [str] is a sequence of code points; [_parse_csv] depends on
    them only through the comma and through [str.isspace], which the
    alphabet provides. *)
Class Alphabet (C : Type) : Type := {
  alphabet_eq_dec :: EqDecision C;
  comma : C;
  isspace : C → bool;
  comma_not_space : isspace comma = false
}.

(** [value.split(",")] *)
Fixpoint split_comma `{Alphabet C} (value : list C) : list (list C) :=
  match value with
  | [] => [[]]
  | c :: rest =>
      if decide (c = comma) then [] :: split_comma rest
      else match split_comma rest with
           | piece :: pieces => (c :: piece) :: pieces
           | [] => [[c]]
           end
  end.

Fixpoint lstrip `{Alphabet C} (v : list C) : list C :=
  match v with
  | [] => []
  | c :: rest => if isspace c then lstrip rest else v
  end.

Fixpoint rstrip `{Alphabet C} (v : list C) : list C :=
  match v with
  | [] => []
  | c :: rest =>
      match rstrip rest with
      | [] => if isspace c then [] else [c]
      | kept => c :: kept
      end
  end.

(** [v.strip()] *)
Definition strip `{Alphabet C} (v : list C) : list C := rstrip (lstrip v).

(** [[v.strip() for v in value.split(",") if v.strip()]] *)
Definition _parse_csv `{Alphabet C} (value : list C) : list (list C) :=
  strip <$> filter (λ v, strip v ≠ []) (split_comma value).

(** [",".join(items)] *)
Fixpoint join_comma `{Alphabet C} (items : list (list C)) : list C :=
  match items with
  | [] => []
  | [v] => v
  | v :: rest => v ++ comma :: join_comma rest
  end.

(** An entry as [_parse_csv] yields them: not empty, free of commas, and
    with no whitespace at either end. *)
Definition clean_entry `{Alphabet C} (v : list C) : Prop :=
  v ≠ [] ∧ (comma ∉ v)
  ∧ (∀ c, head v = Some c → isspace c = false)
  ∧ (∀ c, last v = Some c → isspace c = false).

(** The alphabet of the examples: ASCII with its whitespace. *)
Definition ascii_isspace (c : Ascii.ascii) : bool :=
  let n := Ascii.nat_of_ascii c in
  (bool_decide (9 ≤ n ≤ 13)%nat) || (bool_decide (28 ≤ n ≤ 32)%nat).

#[global] Instance ascii_alphabet : Alphabet Ascii.ascii :=
  {| comma := Ascii.ascii_of_nat 44;
     isspace := ascii_isspace;
     comma_not_space := eq_refl |}.

(** * Properties *)

(** ** Comparison of datetimes *)

Lemma dt_lt_irrefl (a : datetime) : dt_lt a a ≠ Some true.
Proof.
  unfold dt_lt. destruct (tzinfo a); intros [= Hlt]; lia.
Qed.

Lemma dt_le_not_lt (a b : datetime) :
  dt_le a b = Some true ↔ dt_lt b a = Some false.
Proof.
  unfold dt_le, dt_lt.
  destruct (tzinfo a), (tzinfo b); split; intros [= Hc]; f_equal; lia.
Qed.

Lemma dt_lt_comparable (a b : datetime) :
  comparable a b = true ↔ is_Some (dt_lt a b).
Proof.
  unfold comparable, dt_lt. rewrite bool_decide_eq_true.
  destruct (tzinfo a) as [oa|], (tzinfo b) as [ob|]; split; intros Hc;
    try (by eexists); try (by split).
  - destruct (proj1 Hc) as [? [=]]. by eexists.
  - destruct (proj2 Hc) as [? [=]]. by eexists.
Qed.

(** ** Event ids *)

Lemma unique_ids_inj (items : list event) (e e' : event) :
  unique_ids items → e ∈ items → e' ∈ items → ev_id e = ev_id e' → e = e'.
Proof.
  unfold unique_ids. induction items as [|x items IH]; cbn.
  - intros _ He. inversion He.
  - rewrite NoDup_cons, !elem_of_cons.
    intros [Hx Hnd] [->|He] [->|He'] Hid; auto.
    + exfalso. apply Hx. rewrite Hid. by apply list_elem_of_fmap_2.
    + exfalso. apply Hx. rewrite <- Hid. by apply list_elem_of_fmap_2.
Qed.

Lemma unique_ids_app_inv (l1 l2 : list event) (e : event) :
  unique_ids (l1 ++ e :: l2) → unique_ids (l1 ++ l2).
Proof.
  unfold unique_ids. rewrite !fmap_app, fmap_cons, !NoDup_app, NoDup_cons.
  intros (H1 & H12 & _ & H2). split_and!; [done| |done].
  intros x Hx Hx2. apply (H12 x Hx). by right.
Qed.

(** With unique ids, the record found for [(id, owner)] is the record. *)
Lemma list_find_owned (items : list event) (idx : nat) (e : event) :
  unique_ids items → items !! idx = Some e →
  list_find (owned_by (ev_id e) (ev_user_id e)) items = Some (idx, e).
Proof.
  intros Hu Hidx. apply list_find_Some. split_and!; [done|by split|].
  intros j y Hj Hlt [Hid _].
  assert (y = e) as ->.
  { eapply unique_ids_inj; eauto using list_elem_of_lookup_2. }
  apply NoDup_fmap_1 in Hu.
  pose proof (NoDup_lookup _ _ _ _ Hu Hj Hidx). lia.
Qed.

(** ** What a caller meets when no record matches id and owner *)

Section NoMatch.
Variables (event_id user_id : string) (items : list event).
Hypothesis Hnone : ∀ e, e ∈ items → ¬ owned_by event_id user_id e.

Lemma get_event_no_match : get_event event_id user_id items = Err NotFound.
Proof.
  unfold get_event.
  destruct (list_find _ _) as [[i e]|] eqn:Hf; [|done].
  apply list_find_Some in Hf as (Hi & Hid & _).
  apply list_elem_of_lookup_2, list_elem_of_filter in Hi as [Hu He].
  by destruct (Hnone e He).
Qed.

Lemma update_event_no_match (payload : EventUpdate) (now_us : Z) :
  update_event event_id payload user_id now_us items
  = (items, Err NotFound).
Proof.
  unfold update_event.
  destruct (list_find _ _) as [[i e]|] eqn:Hf; [|done].
  apply list_find_Some in Hf as (Hi & Ho & _).
  by destruct (Hnone e (list_elem_of_lookup_2 _ _ _ Hi)).
Qed.

Lemma filter_no_match :
  filter (λ e, ¬ owned_by event_id user_id e) items = items.
Proof.
  induction items as [|x l IH]; [done|].
  rewrite filter_cons_True by (apply Hnone; left).
  f_equal. apply IH. intros e He. apply Hnone. by right.
Qed.

Lemma delete_event_no_match :
  delete_event event_id user_id items = (items, Err NotFound).
Proof.
  unfold delete_event. rewrite filter_no_match. by rewrite decide_True.
Qed.
End NoMatch.

(** ** Ownership isolation *)

(** C1.  Ownership isolation.  In a collection with unique event ids, for
    an event [e] owned by one account and any other account [other], each
    of [get_event], [update_event] and [delete_event] called with [other]
    and the id of [e] answers NotFound (404) and leaves the collection,
    hence the stored event, as it was; the answers are those the caller
    gets from the collection with [e] taken out. *)
Theorem ownership_isolation (items : list event) (e : event) (other : string) :
  unique_ids items → e ∈ items → other ≠ ev_user_id e →
  get_event (ev_id e) other items = Err NotFound
  ∧ (∀ payload now_us,
       update_event (ev_id e) payload other now_us items
       = (items, Err NotFound))
  ∧ delete_event (ev_id e) other items = (items, Err NotFound)
  ∧ status_code NotFound = 404
  ∧ (∀ l1 l2, items = l1 ++ e :: l2 →
       get_event (ev_id e) other (l1 ++ l2)
       = get_event (ev_id e) other items
       ∧ (∀ payload now_us,
            (update_event (ev_id e) payload other now_us (l1 ++ l2)).2
            = (update_event (ev_id e) payload other now_us items).2)
       ∧ (delete_event (ev_id e) other (l1 ++ l2)).2
         = (delete_event (ev_id e) other items).2).
Proof.
  intros Hu He Hne.
  assert (Hnone : ∀ x, x ∈ items → ¬ owned_by (ev_id e) other x).
  { intros x Hx [Hid Hown]. apply Hne.
    by rewrite <- (unique_ids_inj items x e Hu Hx He Hid). }
  split_and!.
  - by apply get_event_no_match.
  - intros. by apply update_event_no_match.
  - by apply delete_event_no_match.
  - done.
  - intros l1 l2 ->.
    assert (Hnone' : ∀ x, x ∈ l1 ++ l2 → ¬ owned_by (ev_id e) other x).
    { intros x Hx. apply Hnone. rewrite elem_of_app in Hx.
      rewrite elem_of_app, elem_of_cons. tauto. }
    split_and!; intros.
    + by rewrite !get_event_no_match.
    + by rewrite !update_event_no_match.
    + by rewrite !delete_event_no_match.
Qed.

Lemma ownership_isolation_witness :
  get_event "e1" "bob" [standup; review] = Err NotFound
  ∧ delete_event "e1" "bob" [standup; review]
    = ([standup; review], Err NotFound).
Proof.
  destruct (ownership_isolation [standup; review] standup "bob")
    as (Hget & _ & Hdel & _).
  - unfold unique_ids. apply (bool_decide_unpack _). vm_compute. reflexivity.
  - left.
  - vm_compute. discriminate.
  - split; [exact Hget|exact Hdel].
Defined.

(** ** Delete *)

(** C7.  [delete_event] answers NotFound exactly when no stored event has
    both the id and the owner, and then writes nothing; otherwise it keeps
    exactly the events that do not match, and with unique event ids the
    collection is one event shorter. *)
Theorem delete_event_spec (event_id user_id : string) (items : list event) :
  ((delete_event event_id user_id items).2 = Err NotFound
   ↔ ¬ ∃ e, e ∈ items ∧ owned_by event_id user_id e)
  ∧ ((delete_event event_id user_id items).2 = Err NotFound →
     (delete_event event_id user_id items).1 = items)
  ∧ ((delete_event event_id user_id items).2 ≠ Err NotFound →
     (delete_event event_id user_id items).2 = Ok deleted_true
     ∧ (∀ e, e ∈ (delete_event event_id user_id items).1
             ↔ e ∈ items ∧ ¬ owned_by event_id user_id e)
     ∧ (unique_ids items →
        S (length (delete_event event_id user_id items).1) = length items)).
Proof.
  unfold delete_event.
  set (keep := λ e : event, ¬ owned_by event_id user_id e).
  destruct (decide (length (filter keep items) = length items)) as [Hlen|Hlen];
    cbn.
  - split_and!; [|done|done].
    split; [intros _|done]. intros (e & He & Ho).
    assert (Hk : ¬ keep e) by (unfold keep; tauto).
    pose proof (length_filter_lt keep items e He Hk). lia.
  - split_and!; [|done|].
    + split; [done|]. intros Hno. exfalso. apply Hlen. f_equal.
      apply filter_no_match. intros e He Ho. apply Hno. eauto.
    + intros _. split_and!; [done| |].
      * intros e. rewrite list_elem_of_filter. unfold keep. tauto.
      * intros Hu. revert Hu. unfold unique_ids.
        assert (Hex : ∃ e, e ∈ items ∧ owned_by event_id user_id e).
        { destruct (decide (Exists (owned_by event_id user_id) items))
            as [Hx|Hx].
          - apply Exists_exists in Hx. exact Hx.
          - exfalso. apply Hlen. f_equal. apply filter_no_match.
            intros e He Ho. apply Hx, Exists_exists. eauto. }
        clear Hlen. revert Hex.
        induction items as [|x l IH]; intros (e & He & Ho).
        { inversion He. }
        rewrite fmap_cons, NoDup_cons. intros [Hx Hnd].
        destruct (decide (owned_by event_id user_id x)) as [Hox|Hox].
        -- rewrite filter_cons_False by (unfold keep; tauto).
           cbn. f_equal. f_equal. apply filter_no_match.
           intros y Hy [Hid _]. apply Hx. destruct Hox as [<- _].
           rewrite <- Hid. by apply list_elem_of_fmap_2.
        -- rewrite filter_cons_True by done. cbn. f_equal.
           apply IH; [|done]. apply elem_of_cons in He as [->|He]; [done|].
           eauto.
Qed.

Lemma delete_event_spec_witness :
  (delete_event "e1" "alice" [standup; review]).2 = Ok deleted_true
  ∧ S (length (delete_event "e1" "alice" [standup; review]).1) = 2%nat.
Proof.
  destruct (delete_event_spec "e1" "alice" [standup; review])
    as (_ & _ & Hdone).
  destruct Hdone as (Hok & _ & Hlen).
  - vm_compute. discriminate.
  - split; [exact Hok|]. apply Hlen.
    unfold unique_ids. apply (bool_decide_unpack _). vm_compute. reflexivity.
Defined.

(** ** Building the response model *)

Lemma event_dict_to_out_err (e : event) (x : error) :
  _event_dict_to_out e = Err x → x = InternalError.
Proof.
  unfold _event_dict_to_out.
  destruct (ev_title e) as [title|]; cbn; [|congruence].
  destruct (ev_start e) as [[s]|]; cbn; [|congruence].
  destruct (ev_end e) as [[t]|]; cbn; [|congruence].
  destruct (ev_created_at e), (ev_updated_at e); cbn.
  destruct (reminder_ok _); congruence.
Qed.

Lemma event_dict_to_out_ok (e : event) (out : EventOut) :
  _event_dict_to_out e = Ok out ↔
  ev_title e = Some (out_title out)
  ∧ ev_start e = Some (isoformat (out_start out))
  ∧ ev_end e = Some (isoformat (out_end out))
  ∧ reminder_ok (ev_reminder_minutes_before e) = true
  ∧ out_id out = ev_id e
  ∧ out_user_id out = ev_user_id e
  ∧ out_description out = ev_description e
  ∧ out_all_day out = default false (ev_all_day e)
  ∧ out_reminder_minutes_before out = ev_reminder_minutes_before e
  ∧ isoformat (out_created_at out) = ev_created_at e
  ∧ isoformat (out_updated_at out) = ev_updated_at e.
Proof.
  unfold _event_dict_to_out.
  destruct e as [i u ti de st en ad re [ca] [ua]]; cbn.
  destruct ti as [ti|]; cbn; [|by split; [|intros (?&_)]].
  destruct st as [[st]|]; cbn; [|by split; [|intros (_&?&_)]].
  destruct en as [[en]|]; cbn; [|by split; [|intros (_&_&?&_)]].
  destruct (reminder_ok re); cbn; [|by split; [|intros (_&_&_&?&_)]].
  destruct out; cbn. unfold isoformat. split.
  - intros [= <- <- <- <- <- <- <- <- <- <-]. by split_and!.
  - intros ([= <-] & [= <-] & [= <-] & _ & -> & -> & -> & -> & -> & [= ->]
            & [= ->]). done.
Qed.

(** ** Range validation on create and update *)

Lemma update_event_unfold (event_id : string) (payload : EventUpdate)
    (user_id : string) (now_us : Z) (items : list event) (idx : nat)
    (e : event) (s t : datetime) :
  list_find (owned_by event_id user_id) items = Some (idx, e) →
  ev_start (merge e payload) = Some (isoformat s) →
  ev_end (merge e payload) = Some (isoformat t) →
  update_event event_id payload user_id now_us items =
  match dt_lt t s with
  | None => (items, Err InternalError)
  | Some true => (items, Err InvalidRange)
  | Some false =>
      let updated :=
        set_updated_at (merge e payload) (isoformat (now_utc now_us)) in
      (<[idx := updated]> items, _event_dict_to_out updated)
  end.
Proof.
  intros Hf Hs Ht. unfold update_event. rewrite Hf. cbv zeta.
  rewrite Hs, Ht. reflexivity.
Qed.

(** C2.  [create_event] and [update_event] answer InvalidRange (400)
    exactly when end < start, on the payload for create and on the merge of
    the stored record with the supplied fields for update; nothing is
    written then.  So an update of [start] alone past the stored end, or of
    [end] alone before the stored start, is refused. *)
Theorem invalid_range_iff :
  (∀ payload user_id now_us event_id items,
     let r := create_event payload user_id now_us event_id items in
     (r.2 = Err InvalidRange
      ↔ dt_lt (c_end payload) (c_start payload) = Some true)
     ∧ (r.2 = Err InvalidRange → r.1 = items))
  ∧ (∀ event_id payload user_id now_us items,
       let r := update_event event_id payload user_id now_us items in
       (r.2 = Err InvalidRange
        ↔ ∃ idx e s t,
            list_find (owned_by event_id user_id) items = Some (idx, e)
            ∧ ev_start (merge e payload) = Some (isoformat s)
            ∧ ev_end (merge e payload) = Some (isoformat t)
            ∧ dt_lt t s = Some true)
       ∧ (r.2 = Err InvalidRange → r.1 = items))
  ∧ status_code InvalidRange = 400
  ∧ (∀ event_id user_id now_us items idx e new_start t,
       list_find (owned_by event_id user_id) items = Some (idx, e) →
       ev_end e = Some (isoformat t) →
       dt_lt t new_start = Some true →
       update_event event_id (only_start new_start) user_id now_us items
       = (items, Err InvalidRange))
  ∧ (∀ event_id user_id now_us items idx e s new_end,
       list_find (owned_by event_id user_id) items = Some (idx, e) →
       ev_start e = Some (isoformat s) →
       dt_lt new_end s = Some true →
       update_event event_id (only_end new_end) user_id now_us items
       = (items, Err InvalidRange)).
Proof.
  split_and!.
  - intros payload user_id now_us event_id items. cbv zeta.
    unfold create_event.
    destruct (dt_lt (c_end payload) (c_start payload)) as [[|]|]; cbn;
      [done| |done].
    destruct (reminder_ok _); split; try split; congruence.
  - intros event_id payload user_id now_us items. cbv zeta.
    unfold update_event.
    destruct (list_find _ items) as [[idx e]|] eqn:Hf; cbv zeta.
    2: { split; [split|]; [intros [=]|intros (?&?&?&?&[=]&_)|intros [=]]. }
    destruct (ev_start (merge e payload)) as [[s]|] eqn:Hs; cbn [fromisoformat].
    2: { split; [split|]; [intros [=]| |intros [=]].
         intros (?&?&?&?&[= <- <-]&Hs'&_). congruence. }
    destruct (ev_end (merge e payload)) as [[t]|] eqn:Ht; cbn [fromisoformat].
    2: { split; [split|]; [intros [=]| |intros [=]].
         intros (?&?&?&?&[= <- <-]&_&Ht'&_). congruence. }
    destruct (dt_lt t s) as [[|]|] eqn:Hlt; cbn [fst snd].
    + split; [|done]. split; [|done]. intros _. by exists idx, e, s, t.
    + split; [split|];
        [intros Hr; by apply event_dict_to_out_err in Hr|
        |intros Hr; by apply event_dict_to_out_err in Hr].
      intros (?&?&?&?&[= <- <-]&Hs'&Ht'&Hlt'). unfold isoformat in *.
      congruence.
    + split; [split|]; [intros [=]| |intros [=]].
      intros (?&?&?&?&[= <- <-]&Hs'&Ht'&Hlt'). unfold isoformat in *.
      congruence.
  - done.
  - intros event_id user_id now_us items idx e new_start t Hf Ht Hlt.
    rewrite (update_event_unfold _ _ _ _ _ idx e new_start t); [|done..].
    by rewrite Hlt.
  - intros event_id user_id now_us items idx e s new_end Hf Hs Hlt.
    rewrite (update_event_unfold _ _ _ _ _ idx e s new_end); [|done..].
    by rewrite Hlt.
Qed.

Lemma invalid_range_iff_witness :
  update_event "e1" (only_start (utc_at 2024 1 1 10 0)) "alice" 0 [standup]
  = ([standup], Err InvalidRange).
Proof.
  destruct invalid_range_iff as (_ & _ & _ & Hstart & _).
  apply (Hstart _ _ _ _ 0%nat standup _ (utc_at 2024 1 1 9 30)).
  - vm_compute. reflexivity.
  - reflexivity.
  - vm_compute. reflexivity.
Defined.

(** ** Partial update *)

Lemma merge_no_fields (e : event) : merge e no_fields = e.
Proof. by destruct e. Qed.

(** C3.  [update_event] succeeds whenever a record matches id and owner
    and its merge with the payload reads back as an event with start not
    after end.  Whenever [update_event] writes, which it does for every
    payload whose merge with the first record matching id and owner has
    start not after end, and whatever it then answers, it replaces that
    record by its merge with the payload, stamped with the current time:
    every field the payload leaves unset keeps its stored value (so an
    update of the title alone keeps start, end and description), every
    field it sets takes the supplied value, id, owner and [created_at]
    stay, [updated_at] becomes the current time, and every other record of
    the collection is untouched.  In every other case it answers an error
    and the collection is as it was.  A successful update is one of the
    writing cases, so [updated_at] is refreshed on every successful
    update. *)
Theorem partial_update_frame (event_id : string) (payload : EventUpdate)
    (user_id : string) (now_us : Z) (items : list event) :
  (∀ idx e out,
     list_find (owned_by event_id user_id) items = Some (idx, e) →
     _event_dict_to_out
       (set_updated_at (merge e payload) (isoformat (now_utc now_us)))
     = Ok out →
     dt_le (out_start out) (out_end out) = Some true →
     update_event event_id payload user_id now_us items
     = (<[idx := set_updated_at (merge e payload)
                   (isoformat (now_utc now_us))]> items, Ok out))
  ∧
  (∀ items' out,
  update_event event_id payload user_id now_us items = (items', Ok out) →
  ∃ idx e e',
    list_find (owned_by event_id user_id) items = Some (idx, e)
    ∧ items' = <[idx := e']> items
    ∧ items' !! idx = Some e'
    ∧ (∀ j, j ≠ idx → items' !! j = items !! j)
    ∧ _event_dict_to_out e' = Ok out
    ∧ ev_id e' = ev_id e
    ∧ ev_user_id e' = ev_user_id e
    ∧ ev_created_at e' = ev_created_at e
    ∧ ev_updated_at e' = isoformat (now_utc now_us)
    ∧ (u_title payload = Unset → ev_title e' = ev_title e)
    ∧ (u_description payload = Unset → ev_description e' = ev_description e)
    ∧ (u_start payload = Unset → ev_start e' = ev_start e)
    ∧ (u_end payload = Unset → ev_end e' = ev_end e)
    ∧ (u_all_day payload = Unset → ev_all_day e' = ev_all_day e)
    ∧ (u_reminder_minutes_before payload = Unset →
       ev_reminder_minutes_before e' = ev_reminder_minutes_before e)
    ∧ (∀ v, u_title payload = Val v → ev_title e' = Some v)
    ∧ (∀ v, u_description payload = Val v → ev_description e' = Some v)
    ∧ (∀ v, u_start payload = Val v → ev_start e' = Some (isoformat v))
    ∧ (∀ v, u_end payload = Val v → ev_end e' = Some (isoformat v))
    ∧ (∀ v, u_all_day payload = Val v → ev_all_day e' = Some v)
    ∧ (∀ v, u_reminder_minutes_before payload = Val v →
         ev_reminder_minutes_before e' = Some v))
  ∧
  (∀ idx e s t,
     list_find (owned_by event_id user_id) items = Some (idx, e) →
     ev_start (merge e payload) = Some (isoformat s) →
     ev_end (merge e payload) = Some (isoformat t) →
     dt_le s t = Some true →
     update_event event_id payload user_id now_us items
     = (<[idx := set_updated_at (merge e payload)
                   (isoformat (now_utc now_us))]> items,
        _event_dict_to_out
          (set_updated_at (merge e payload) (isoformat (now_utc now_us)))))
  ∧
  (∀ items' r,
  update_event event_id payload user_id now_us items = (items', r) →
  (items' = items ∧ ∃ x, r = Err x)
  ∨ ∃ idx e e',
    list_find (owned_by event_id user_id) items = Some (idx, e)
    ∧ items' = <[idx := e']> items
    ∧ items' !! idx = Some e'
    ∧ (∀ j, j ≠ idx → items' !! j = items !! j)
    ∧ r = _event_dict_to_out e'
    ∧ ev_id e' = ev_id e
    ∧ ev_user_id e' = ev_user_id e
    ∧ ev_created_at e' = ev_created_at e
    ∧ ev_updated_at e' = isoformat (now_utc now_us)
    ∧ (u_title payload = Unset → ev_title e' = ev_title e)
    ∧ (u_description payload = Unset → ev_description e' = ev_description e)
    ∧ (u_start payload = Unset → ev_start e' = ev_start e)
    ∧ (u_end payload = Unset → ev_end e' = ev_end e)
    ∧ (u_all_day payload = Unset → ev_all_day e' = ev_all_day e)
    ∧ (u_reminder_minutes_before payload = Unset →
       ev_reminder_minutes_before e' = ev_reminder_minutes_before e)
    ∧ (∀ v, u_title payload = Val v → ev_title e' = Some v)
    ∧ (u_title payload = Null → ev_title e' = None)
    ∧ (∀ v, u_description payload = Val v → ev_description e' = Some v)
    ∧ (u_description payload = Null → ev_description e' = None)
    ∧ (∀ v, u_start payload = Val v → ev_start e' = Some (isoformat v))
    ∧ (∀ v, u_end payload = Val v → ev_end e' = Some (isoformat v))
    ∧ (∀ v, u_all_day payload = Val v → ev_all_day e' = Some v)
    ∧ (u_all_day payload = Null → ev_all_day e' = None)
    ∧ (∀ v, u_reminder_minutes_before payload = Val v →
         ev_reminder_minutes_before e' = Some v)
    ∧ (u_reminder_minutes_before payload = Null →
       ev_reminder_minutes_before e' = None)).
Proof.
  split_and!.
  - intros idx e out Hf Hout Hle.
    pose proof Hout as (_ & Hs & Ht & _)%event_dict_to_out_ok.
    rewrite (update_event_unfold _ _ _ _ _ idx e (out_start out)
               (out_end out)); [|done..].
    apply dt_le_not_lt in Hle. rewrite Hle. cbv zeta. by rewrite Hout.
  - intros items' out. unfold update_event.
    destruct (list_find _ items) as [[idx e]|] eqn:Hf; [|intros [=]].
    cbv zeta.
    destruct (fromisoformat (ev_start (merge e payload))) as [s|];
      [|intros [=]].
    destruct (fromisoformat (ev_end (merge e payload))) as [t|];
      [|intros [=]].
    destruct (dt_lt t s) as [[|]|]; intros [= <- Hout].
    pose proof Hf as (Hidx & _ & _)%list_find_Some.
    eexists idx, e, _. split_and!; try done.
    + apply list_lookup_insert_eq. by eapply lookup_lt_Some.
    + intros j Hj. by apply list_lookup_insert_ne.
    + cbn. by intros ->.
    + cbn. by intros ->.
    + cbn. by intros ->.
    + cbn. by intros ->.
    + cbn. by intros ->.
    + cbn. by intros ->.
    + cbn. by intros v ->.
    + cbn. by intros v ->.
    + cbn. by intros v ->.
    + cbn. by intros v ->.
    + cbn. by intros v ->.
    + cbn. by intros v ->.
  - intros idx e s t Hf Hs Ht Hle%dt_le_not_lt.
    rewrite (update_event_unfold _ _ _ _ _ idx e s t) by done.
    by rewrite Hle.
  - intros items' r. unfold update_event.
    destruct (list_find _ items) as [[idx e]|] eqn:Hf;
      [|intros [= <- <-]; left; eauto].
    cbv zeta.
    destruct (fromisoformat (ev_start (merge e payload))) as [s|];
      [|intros [= <- <-]; left; eauto].
    destruct (fromisoformat (ev_end (merge e payload))) as [t|];
      [|intros [= <- <-]; left; eauto].
    destruct (dt_lt t s) as [[|]|]; intros [= <- <-];
      [left; eauto| |left; eauto].
    right. pose proof Hf as (Hidx & _ & _)%list_find_Some.
    eexists idx, e, _. split_and!;
      first [ done
            | apply list_lookup_insert_eq; by eapply lookup_lt_Some
            | intros j Hj; by apply list_lookup_insert_ne
            | cbn; by intros ->
            | cbn; by intros v -> ].
Qed.

Lemma partial_update_frame_witness :
  (∃ idx e e',
     list_find (owned_by "e1" "alice") [standup; review] = Some (idx, e)
     ∧ ev_title e' = Some "Daily"
     ∧ ev_description e' = ev_description e
     ∧ ev_start e' = ev_start e
     ∧ ev_end e' = ev_end e
     ∧ ev_updated_at e' = isoformat (now_utc 7))
  ∧ update_event "e1" title_null "alice" 7 [standup; review]
    = ([standup_untitled; review], Err InternalError).
Proof.
  destruct (partial_update_frame "e1" (only_title "Daily") "alice" 7
              [standup; review]) as (Hrun & Hframe & _ & _).
  split.
  - edestruct Hframe
      as (idx & e & e' & Hf & _ & _ & _ & _ & _ & _ & _ & Hup & _ & Hd & Hs
          & Ht & _ & _ & Hti & _).
    + apply (Hrun 0%nat standup (refreshed
               {| out_title := "Daily"; out_description := None;
                  out_start := utc_at 2024 1 1 9 0;
                  out_end := utc_at 2024 1 1 9 30;
                  out_all_day := false; out_reminder_minutes_before := None;
                  out_id := "e1"; out_user_id := "alice";
                  out_created_at := utc_at 2024 1 1 0 0;
                  out_updated_at := utc_at 2024 1 1 0 0 |} (now_utc 7)));
        vm_compute; reflexivity.
    + exists idx, e, e'. split_and!.
      * exact Hf.
      * apply Hti. reflexivity.
      * apply Hd. reflexivity.
      * apply Hs. reflexivity.
      * apply Ht. reflexivity.
      * exact Hup.
  - destruct (partial_update_frame "e1" title_null "alice" 7
                [standup; review]) as (_ & _ & Hwrite & _).
    rewrite (Hwrite 0%nat standup (utc_at 2024 1 1 9 0)
               (utc_at 2024 1 1 9 30)).
    + vm_compute. reflexivity.
    + vm_compute. reflexivity.
    + reflexivity.
    + reflexivity.
    + vm_compute. reflexivity.
Defined.

(** On a stored event the response model can be built from, with start not
    after end, in a collection with unique ids, the update that supplies
    no field succeeds: it answers the event with a refreshed [updated_at]
    and stores the same record with only [updated_at] changed. *)
Theorem empty_update_refreshes_only_updated_at (items : list event)
    (idx : nat) (e : event) (out : EventOut) (now_us : Z) :
  unique_ids items →
  items !! idx = Some e →
  _event_dict_to_out e = Ok out →
  dt_le (out_start out) (out_end out) = Some true →
  ∃ e',
    update_event (ev_id e) no_fields (ev_user_id e) now_us items
    = (<[idx := e']> items, Ok (refreshed out (now_utc now_us)))
    ∧ ev_updated_at e' = isoformat (now_utc now_us)
    ∧ ev_id e' = ev_id e
    ∧ ev_user_id e' = ev_user_id e
    ∧ ev_title e' = ev_title e
    ∧ ev_description e' = ev_description e
    ∧ ev_start e' = ev_start e
    ∧ ev_end e' = ev_end e
    ∧ ev_all_day e' = ev_all_day e
    ∧ ev_reminder_minutes_before e' = ev_reminder_minutes_before e
    ∧ ev_created_at e' = ev_created_at e
    ∧ (∀ j, j ≠ idx → <[idx := e']> items !! j = items !! j).
Proof.
  intros Hu Hidx Hout Hle.
  exists (set_updated_at e (isoformat (now_utc now_us))).
  split_and!; try done.
  - pose proof Hout as Hfields.
    apply event_dict_to_out_ok in Hfields
      as (Hti & Hs & Ht & Hrem & Hid & Hown & Hd & Had & Hr & Hc & Hua).
    rewrite (update_event_unfold _ _ _ _ _ idx e (out_start out) (out_end out));
      [|by apply list_find_owned|by rewrite merge_no_fields..].
    apply dt_le_not_lt in Hle. rewrite Hle, merge_no_fields. cbv zeta.
    f_equal. apply event_dict_to_out_ok. cbn. by split_and!.
  - intros j Hj. by apply list_lookup_insert_ne.
Qed.

Lemma empty_update_refreshes_only_updated_at_witness :
  ∃ e', update_event "e1" no_fields "alice" 7 [standup; review]
        = ([e'; review], Ok (refreshed standup_out (now_utc 7)))
        ∧ ev_updated_at e' = isoformat (now_utc 7)
        ∧ ev_title e' = Some "Standup"
        ∧ ev_start e' = ev_start standup
        ∧ ev_end e' = ev_end standup
        ∧ ev_created_at e' = ev_created_at standup.
Proof.
  destruct (empty_update_refreshes_only_updated_at [standup; review] 0
              standup standup_out 7)
    as (e' & Hrun & Hup & _ & _ & Hti & _ & Hs & Ht & _ & _ & Hc & _).
  - unfold unique_ids. apply (bool_decide_unpack _). vm_compute. reflexivity.
  - reflexivity.
  - vm_compute. reflexivity.
  - vm_compute. reflexivity.
  - exists e'. split_and!; [exact Hrun|exact Hup|exact Hti|exact Hs|exact Ht
                           |exact Hc].
Defined.

(** C10.  The code does not keep the claim.  [update_event] writes a title
    set to [null] before the response model, whose [title] is a required
    string, refuses it; the stored event is then still an existing event of
    its owner, and the update that supplies no field, aimed at it, refreshes
    [updated_at] alone in the store but answers a 500 instead of the
    event.  Here: an event is created, its title is set to [null], and the
    empty update follows. *)
Theorem empty_update_after_null_title :
  ∃ created out untitled refreshed_record,
    create_event standup_payload "alice" 5 "e1" [] = ([created], Ok out)
    ∧ update_event "e1" title_null "alice" 7 [created]
      = ([untitled], Err InternalError)
    ∧ ev_id untitled = "e1"
    ∧ ev_user_id untitled = "alice"
    ∧ ev_title untitled = None
    ∧ update_event "e1" no_fields "alice" 9 [untitled]
      = ([refreshed_record], Err InternalError)
    ∧ refreshed_record = set_updated_at untitled (isoformat (now_utc 9))
    ∧ status_code InternalError = 500.
Proof.
  eexists _, _, _, _.
  split; [vm_compute; reflexivity|].
  split; [vm_compute; reflexivity|].
  split_and!; [reflexivity..|vm_compute; reflexivity| |reflexivity].
  reflexivity.
Qed.

(** ** Create *)

Lemma validate_EventCreate_ok (body : EventBody) (payload : EventCreate) :
  validate_EventCreate body = Ok payload →
  b_title body = Val (c_title payload)
  ∧ b_start body = Val (c_start payload)
  ∧ b_end body = Val (c_end payload)
  ∧ reminder_ok (c_reminder_minutes_before payload) = true.
Proof.
  unfold validate_EventCreate.
  destruct (b_title body); cbn; try congruence.
  destruct (b_start body); cbn; try congruence.
  destruct (b_end body); cbn; try congruence.
  destruct (b_all_day body); cbn; try congruence;
    destruct (reminder_ok _) eqn:Hr; intros [= <-]; by cbn.
Qed.

Lemma create_event_valid (payload : EventCreate) (user_id : string)
    (now_us : Z) (event_id : string) (items : list event) :
  dt_le (c_start payload) (c_end payload) = Some true →
  reminder_ok (c_reminder_minutes_before payload) = true →
  create_event payload user_id now_us event_id items =
  (items ++ [ {| ev_id := event_id;
                 ev_user_id := user_id;
                 ev_title := Some (c_title payload);
                 ev_description := c_description payload;
                 ev_start := Some (isoformat (c_start payload));
                 ev_end := Some (isoformat (c_end payload));
                 ev_all_day := Some (c_all_day payload);
                 ev_reminder_minutes_before :=
                   c_reminder_minutes_before payload;
                 ev_created_at := isoformat (now_utc now_us);
                 ev_updated_at := isoformat (now_utc now_us) |} ],
   Ok {| out_id := event_id;
         out_user_id := user_id;
         out_title := c_title payload;
         out_description := c_description payload;
         out_start := c_start payload;
         out_end := c_end payload;
         out_all_day := c_all_day payload;
         out_reminder_minutes_before := c_reminder_minutes_before payload;
         out_created_at := now_utc now_us;
         out_updated_at := now_utc now_us |}).
Proof.
  intros Hle%dt_le_not_lt Hr. unfold create_event. rewrite Hle.
  cbv zeta. f_equal. unfold _event_dict_to_out. cbn. by rewrite Hr.
Qed.

(** The newest record is the one [get_event] finds for a fresh id. *)
Lemma get_event_appended (e : event) (items : list event) :
  (∀ x, x ∈ items → ev_id x ≠ ev_id e) →
  get_event (ev_id e) (ev_user_id e) (items ++ [e]) = _event_dict_to_out e.
Proof.
  intros Hfresh. unfold get_event, _list_events_for_user.
  rewrite filter_app, filter_cons_True, filter_nil by done.
  rewrite list_find_app_r.
  - cbn. by rewrite decide_True.
  - apply list_find_None, Forall_forall. intros x Hx%list_elem_of_filter.
    apply Hfresh. tauto.
Qed.

(** C8.  For a create request that passes validation with start ≤ end,
    given a fresh event id, [create_event] succeeds and appends the new
    record, and [get_event] with the same owner and the returned id answers
    the very response [create_event] gave. *)
Theorem create_get_roundtrip (body : EventBody) (payload : EventCreate)
    (user_id : string) (now_us : Z) (event_id : string)
    (items : list event) :
  validate_EventCreate body = Ok payload →
  dt_le (c_start payload) (c_end payload) = Some true →
  (∀ x, x ∈ items → ev_id x ≠ event_id) →
  ∃ e out,
    post_events body user_id now_us event_id items = (items ++ [e], Ok out)
    ∧ create_event payload user_id now_us event_id items
      = (items ++ [e], Ok out)
    ∧ get_event (out_id out) user_id (items ++ [e]) = Ok out
    ∧ out_id out = event_id
    ∧ out_user_id out = user_id
    ∧ out_title out = c_title payload
    ∧ out_start out = c_start payload
    ∧ out_end out = c_end payload.
Proof.
  intros Hv Hle Hfresh.
  pose proof (validate_EventCreate_ok _ _ Hv) as (_ & _ & _ & Hr).
  pose proof (create_event_valid payload user_id now_us event_id items Hle Hr)
    as Hrun.
  eexists _, _. split_and!.
  - unfold post_events. rewrite Hv. exact Hrun.
  - exact Hrun.
  - cbn [out_id].
    match goal with
    | |- get_event _ _ (_ ++ [?e]) = _ =>
        etransitivity; [exact (get_event_appended e items Hfresh)|]
    end.
    unfold _event_dict_to_out. cbn. by rewrite Hr.
  - done.
  - done.
  - done.
  - done.
  - done.
Qed.

Lemma create_get_roundtrip_witness :
  ∃ e out,
    post_events standup_body "alice" 7 "e7" [review] = ([review; e], Ok out)
    ∧ get_event (out_id out) "alice" [review; e] = Ok out.
Proof.
  destruct (create_get_roundtrip standup_body standup_payload "alice" 7
              "e7" [review])
    as (e & out & Hpost & _ & Hget & _).
  - vm_compute. reflexivity.
  - vm_compute. reflexivity.
  - intros x Hx. apply list_elem_of_singleton in Hx as ->.
    vm_compute. discriminate.
  - exists e, out. split; [exact Hpost|exact Hget].
Defined.

(** C9, as stated, fails: a create request with the empty string as title
    passes validation, is stored and answered. *)
Lemma empty_title_accepted :
  b_title untitled_body = Val ""
  ∧ (∃ e out, post_events untitled_body "alice" 7 "e9" [] = ([e], Ok out)
              ∧ ev_title e = Some "" ∧ out_title out = "")
  ∧ post_events untitled_body "alice" 7 "e9" [] ≠ ([], Err ValidationError).
Proof.
  split_and!.
  - reflexivity.
  - eexists _, _. split_and!; [vm_compute; reflexivity|done..].
  - vm_compute. discriminate.
Qed.

(** C9, amended.  The title is required text and may be empty: a create
    request whose title is missing or [null] is refused with
    ValidationError and nothing is stored, while a request that passes
    validation with the empty string as title and start ≤ end succeeds and
    stores an event whose title is the empty string. *)
Theorem title_required_may_be_empty (body : EventBody) (user_id : string)
    (now_us : Z) (event_id : string) (items : list event) :
  (b_title body = Unset ∨ b_title body = Null →
   post_events body user_id now_us event_id items
   = (items, Err ValidationError))
  ∧ (∀ payload,
       b_title body = Val "" →
       validate_EventCreate body = Ok payload →
       dt_le (c_start payload) (c_end payload) = Some true →
       ∃ e out,
         post_events body user_id now_us event_id items
         = (items ++ [e], Ok out)
         ∧ ev_title e = Some ""
         ∧ out_title out = "").
Proof.
  split.
  - unfold post_events, validate_EventCreate. by intros [-> | ->].
  - intros payload Hti Hv Hle.
    pose proof (validate_EventCreate_ok _ _ Hv) as (Hti' & _ & _ & Hr).
    assert (c_title payload = "") as Hempty by congruence.
    eexists _, _. split_and!.
    + unfold post_events. rewrite Hv. by apply create_event_valid.
    + cbn. by rewrite Hempty.
    + cbn. by rewrite Hempty.
Qed.

Lemma title_required_may_be_empty_witness :
  post_events (mk_EventBody Unset Unset (Val (utc_at 2024 1 1 9 0))
                 (Val (utc_at 2024 1 1 9 30)) Unset Unset) "alice" 7 "e9" []
  = ([], Err ValidationError)
  ∧ ∃ e out, post_events untitled_body "alice" 7 "e9" [] = ([e], Ok out)
             ∧ ev_title e = Some "" ∧ out_title out = "".
Proof.
  split.
  - apply (title_required_may_be_empty _ "alice" 7 "e9" []).
    left. reflexivity.
  - destruct (title_required_may_be_empty untitled_body "alice" 7 "e9" [])
      as (_ & Hok).
    destruct (Hok untitled_payload) as (e & out & Hrun & Hti & Hto).
    + reflexivity.
    + vm_compute. reflexivity.
    + vm_compute. reflexivity.
    + exists e, out. split_and!; [exact Hrun|exact Hti|exact Hto].
Defined.

(** ** The range filter *)

Lemma overlaps_spec (start_dt end_dt : datetime) (e : event) :
  overlaps start_dt end_dt e = true ↔
  ∃ s t, ev_start e = Some (isoformat s) ∧ ev_end e = Some (isoformat t)
         ∧ dt_lt s end_dt = Some true ∧ dt_gt t start_dt = Some true.
Proof.
  unfold overlaps, isoformat.
  destruct (ev_start e) as [[s]|], (ev_end e) as [[t]|];
    try (split; [done|by intros (?&?&?&?&_)]).
  rewrite andb_true_iff, !bool_decide_eq_true. split.
  - intros [Hs Ht]. by exists s, t.
  - intros (s' & t' & [= <-] & [= <-] & Hs & Ht). done.
Qed.

Lemma range_filter_exact (events : list event) (start_dt end_dt : datetime)
    (out : list event) :
  _range_filter events start_dt end_dt = Ok out →
  out = filter (λ e, overlaps start_dt end_dt e = true) events.
Proof.
  revert out. induction events as [|e rest IH]; intros out.
  { by intros [= <-]. }
  rewrite filter_cons. cbn. unfold overlaps.
  destruct (ev_start e) as [[s]|]; cbn; [|done].
  destruct (ev_end e) as [[t]|]; cbn; [|done].
  destruct (dt_lt s end_dt) as [[|]|]; cbn; [| |done].
  - destruct (dt_gt t start_dt) as [[|]|]; cbn; [| |done].
    + destruct (_range_filter rest start_dt end_dt) as [out'|]; cbn; [|done].
      intros [= <-]. rewrite decide_True by done. f_equal. by apply IH.
    + rewrite decide_False by done. apply IH.
  - rewrite decide_False by done. apply IH.
Qed.

Lemma range_filter_total (events : list event) (start_dt end_dt : datetime) :
  Forall (λ e, timed_for start_dt end_dt e = true) events →
  _range_filter events start_dt end_dt
  = Ok (filter (λ e, overlaps start_dt end_dt e = true) events).
Proof.
  induction 1 as [|e rest He _ IH]; [done|].
  rewrite filter_cons. cbn. rewrite IH. unfold overlaps, timed_for in *.
  destruct (ev_start e) as [[s]|]; cbn; [|done].
  destruct (ev_end e) as [[t]|]; cbn; [|done].
  apply andb_true_iff in He as [[bs Hs]%dt_lt_comparable
                                  [bt Ht]%dt_lt_comparable].
  unfold dt_gt. rewrite Hs, Ht.
  destruct bs, bt; cbn; by rewrite ?decide_True, ?decide_False by done.
Qed.

(** C4.  [_range_filter] keeps an event exactly when
    event.start < windowEnd and event.end > windowStart.  Whenever it
    returns, its output is the input filtered by that test, in order; it
    returns whenever every event carries start and end texts that compare
    with the window bounds; an event that starts exactly at the window end,
    or ends exactly at the window start, is left out. *)
Theorem range_filter_overlap (events : list event)
    (start_dt end_dt : datetime) :
  (Forall (λ e, timed_for start_dt end_dt e = true) events →
   _range_filter events start_dt end_dt
   = Ok (filter (λ e, overlaps start_dt end_dt e = true) events))
  ∧ (∀ out, _range_filter events start_dt end_dt = Ok out →
       out = filter (λ e, overlaps start_dt end_dt e = true) events
       ∧ (∀ e, e ∈ events →
            (e ∈ out ↔
             ∃ s t, ev_start e = Some (isoformat s)
                    ∧ ev_end e = Some (isoformat t)
                    ∧ dt_lt s end_dt = Some true
                    ∧ dt_gt t start_dt = Some true))
       ∧ (∀ e, ev_start e = Some (isoformat end_dt) → e ∉ out)
       ∧ (∀ e, ev_end e = Some (isoformat start_dt) → e ∉ out)).
Proof.
  split; [apply range_filter_total|].
  intros out ->%range_filter_exact. split_and!; [done| | |].
  - intros e He. rewrite list_elem_of_filter, overlaps_spec. tauto.
  - intros e Hs [Ho _]%list_elem_of_filter.
    apply overlaps_spec in Ho as (s & t & Hs' & _ & Hlt & _).
    rewrite Hs in Hs'. injection Hs' as <-. by apply dt_lt_irrefl in Hlt.
  - intros e Ht [Ho _]%list_elem_of_filter.
    apply overlaps_spec in Ho as (s & t & _ & Ht' & _ & Hgt).
    rewrite Ht in Ht'. injection Ht' as <-. by apply dt_lt_irrefl in Hgt.
Qed.

Lemma range_filter_overlap_witness :
  _range_filter [standup; review]
    (utc_at 2024 1 1 0 0) (utc_at 2024 1 2 0 0) = Ok [standup]
  ∧ _range_filter [standup; review]
      (utc_at 2024 1 1 9 30) (utc_at 2024 1 1 10 0) = Ok []
  ∧ _range_filter [standup; review]
      (utc_at 2024 1 1 8 0) (utc_at 2024 1 1 9 0) = Ok [].
Proof.
  split_and!.
  - destruct (range_filter_overlap [standup; review]
                (utc_at 2024 1 1 0 0) (utc_at 2024 1 2 0 0)) as [Hrun _].
    rewrite Hrun; [vm_compute; reflexivity|].
    apply (bool_decide_unpack _). vm_compute. reflexivity.
  - destruct (range_filter_overlap [standup; review]
                (utc_at 2024 1 1 9 30) (utc_at 2024 1 1 10 0)) as [Hrun _].
    rewrite Hrun; [vm_compute; reflexivity|].
    apply (bool_decide_unpack _). vm_compute. reflexivity.
  - destruct (range_filter_overlap [standup; review]
                (utc_at 2024 1 1 8 0) (utc_at 2024 1 1 9 0)) as [Hrun _].
    rewrite Hrun; [vm_compute; reflexivity|].
    apply (bool_decide_unpack _). vm_compute. reflexivity.
Defined.

(** ** Month windows *)

Lemma days_before_year_succ (y : Z) :
  days_before_year (y + 1)
  = days_before_year y + 365 + (if is_leap y then 1 else 0).
Proof.
  unfold days_before_year, is_leap. cbv zeta.
  replace (y + 1 - 1) with y by lia.
  destruct (Z.eqb_spec (y mod 4) 0), (Z.eqb_spec (y mod 100) 0),
    (Z.eqb_spec (y mod 400) 0); cbn [negb andb orb];
    Z.div_mod_to_equations; lia.
Qed.

Lemma days_in_month_pos (y m : Z) : 1 ≤ m ≤ 12 → 28 ≤ days_in_month y m.
Proof.
  intros Hm. unfold days_in_month.
  assert (m = 1 ∨ m = 2 ∨ m = 3 ∨ m = 4 ∨ m = 5 ∨ m = 6 ∨ m = 7 ∨ m = 8
          ∨ m = 9 ∨ m = 10 ∨ m = 11 ∨ m = 12) as Hcases by lia.
  destruct_or!; subst m; cbn; destruct (is_leap y); cbn; lia.
Qed.

(** From the first of a month to the first of the next there are as many
    days as the month has. *)
Lemma first_of_next_month (y m : Z) :
  1 ≤ m ≤ 12 →
  ymd2ord (mk_date (next_month y m).1 (next_month y m).2 1)
  = ymd2ord (mk_date y m 1) + days_in_month y m.
Proof.
  intros Hm. unfold ymd2ord, next_month, days_in_month, days_before_month.
  assert (m = 1 ∨ m = 2 ∨ m = 3 ∨ m = 4 ∨ m = 5 ∨ m = 6 ∨ m = 7 ∨ m = 8
          ∨ m = 9 ∨ m = 10 ∨ m = 11 ∨ m = 12) as Hcases by lia.
  destruct_or!; subst m; simpl; rewrite ?days_before_year_succ;
    destruct (is_leap y); simpl; lia.
Qed.

Lemma month_window_next (y m : Z) :
  (month_window y m).2
  = midnight_utc (mk_date (next_month y m).1 (next_month y m).2 1).
Proof. unfold month_window, next_month. by destruct (m =? 12). Qed.

Lemma next_month_range (y m : Z) :
  1 ≤ m ≤ 12 → 1 ≤ (next_month y m).2 ≤ 12.
Proof.
  intros Hm. unfold next_month. destruct (Z.eqb_spec m 12); cbn; lia.
Qed.

Lemma month_window_length (y m : Z) :
  1 ≤ m ≤ 12 →
  wall (month_window y m).2 - wall (month_window y m).1
  = days_in_month y m * US_PER_DAY.
Proof.
  intros Hm. rewrite month_window_next. unfold month_window. cbn.
  pose proof (first_of_next_month y m Hm) as Hn. cbn in Hn. rewrite Hn. lia.
Qed.

Lemma month_window_ordered (y m : Z) :
  1 ≤ m ≤ 12 →
  dt_lt (month_window y m).1 (month_window y m).2 = Some true.
Proof.
  intros Hm. pose proof (month_window_length y m Hm) as Hlen.
  pose proof (days_in_month_pos y m Hm).
  unfold month_window, dt_lt in *. cbn in *. f_equal.
  apply Z.ltb_lt. unfold US_PER_DAY in *. lia.
Qed.

Lemma month_events_exact (year month : Z) (user_id : string)
    (items out : list event) (e : event) :
  month_events year month user_id items = Ok out →
  e ∈ out ↔
  e ∈ items ∧ ev_user_id e = user_id
  ∧ overlaps (month_window year month).1 (month_window year month).2 e = true.
Proof.
  unfold month_events, _list_events_for_user.
  destruct ((1970 <=? year) && _ && _ && _); [|done].
  intros ->%range_filter_exact. rewrite !list_elem_of_filter. tauto.
Qed.

(** C5, as stated, fails: of two events of 2024-12-31 that span into
    2025-01-01T00:00:00Z, one ending on that instant and one an hour later,
    both are kept for December 2024, and the first is not kept for January
    2025. *)
Lemma month_boundary_counterexample :
  (month_window 2024 12).2 = utc_at 2025 1 1 0 0
  ∧ spans_into countdown (utc_at 2025 1 1 0 0)
  ∧ spans_into party (utc_at 2025 1 1 0 0)
  ∧ month_events 2024 12 "alice" [countdown; party] = Ok [countdown; party]
  ∧ month_events 2025 1 "alice" [countdown; party] = Ok [party]
  ∧ ¬ (∀ e, e ∈ [countdown; party] → spans_into e (month_window 2024 12).2 →
         (∀ out, month_events 2024 12 "alice" [countdown; party] = Ok out →
                 e ∉ out)
         ∧ (∀ out, month_events 2025 1 "alice" [countdown; party] = Ok out →
                   e ∈ out)).
Proof.
  assert (Hc : spans_into countdown (utc_at 2025 1 1 0 0)).
  { eexists _, _. split_and!; [reflexivity..| |]; by vm_compute. }
  assert (Hdec : month_events 2024 12 "alice" [countdown; party]
                 = Ok [countdown; party]) by (by vm_compute).
  split_and!; [by vm_compute|done| |done|by vm_compute|].
  - eexists _, _. split_and!; [reflexivity..| |]; by vm_compute.
  - intros Hclaim.
    destruct (Hclaim countdown) as [Hout _]; [by left|exact Hc|].
    apply (Hout _ Hdec). by left.
Qed.

(** ** Signup *)

Lemma get_user_by_email_None `{Runtime} (email : string) (users : list user) :
  _get_user_by_email email users = None ↔
  ¬ ∃ u, u ∈ users ∧ lower (usr_email u) = lower email.
Proof.
  unfold _get_user_by_email. rewrite fmap_None, list_find_None, Forall_forall.
  unfold same_email. split.
  - intros Hall (u & Hu & He). by apply (Hall u).
  - intros Hno u Hu He. apply Hno. eauto.
Qed.

(** C6.  [signup] answers Conflict (409) exactly when some stored account
    has the requested email up to letter case, and then writes nothing;
    when there is none it succeeds and appends the new account, carrying the
    requested email, to the accounts collection. *)
Theorem signup_conflict_iff `{Runtime} (payload : SignupRequest)
    (user_id : string) (now_us : Z) (users : list user) :
  let r := signup payload user_id now_us users in
  (r.2 = Err Conflict
   ↔ ∃ u, u ∈ users ∧ lower (usr_email u) = lower (su_email payload))
  ∧ (r.2 = Err Conflict → r.1 = users)
  ∧ status_code Conflict = 409
  ∧ ((¬ ∃ u, u ∈ users ∧ lower (usr_email u) = lower (su_email payload)) →
     ∃ u, r = (users ++ [u],
               Ok (mk_AuthResponse (create_access_token user_id) "bearer"))
          ∧ usr_id u = user_id
          ∧ usr_email u = su_email payload
          ∧ usr_password_hash u = hash_password (su_password payload)).
Proof.
  cbv zeta. unfold signup.
  destruct (_get_user_by_email (su_email payload) users) as [u|] eqn:Hfind.
  - assert (Hex : ∃ u, u ∈ users
                       ∧ lower (usr_email u) = lower (su_email payload)).
    { unfold _get_user_by_email in Hfind.
      apply fmap_Some in Hfind as ([i u'] & Hf & ->).
      apply list_find_Some in Hf as (Hi & He & _).
      exists u'. split; [by eapply list_elem_of_lookup_2|exact He]. }
    split_and!; [by split|done|done|]. by intros Hno.
  - pose proof (proj1 (get_user_by_email_None _ _) Hfind) as Hno.
    split_and!; [split; [intros [=]|by intros Hex]|intros [=]|done|].
    intros _. eexists. split_and!; [reflexivity|done..].
Qed.

Lemma signup_conflict_iff_witness :
  (signup (H := ascii_runtime) (mk_SignupRequest "A@X.com" "secret1") "u2" 7
     [mk_user "u1" "a@x.com" "hash:secret1" (isoformat (now_utc 3))]).2
  = Err Conflict
  ∧ ∃ u, signup (H := ascii_runtime) (mk_SignupRequest "b@x.com" "secret2")
           "u2" 7
           [mk_user "u1" "a@x.com" "hash:secret1" (isoformat (now_utc 3))]
         = ([mk_user "u1" "a@x.com" "hash:secret1" (isoformat (now_utc 3)); u],
            Ok (mk_AuthResponse "token:u2" "bearer"))
         ∧ usr_email u = "b@x.com".
Proof.
  split.
  - apply (signup_conflict_iff (H := ascii_runtime)).
    eexists. split; [left|]. vm_compute. reflexivity.
  - destruct (signup_conflict_iff (H := ascii_runtime)
                (mk_SignupRequest "b@x.com" "secret2") "u2" 7
                [mk_user "u1" "a@x.com" "hash:secret1" (isoformat (now_utc 3))])
      as (_ & _ & _ & Hnew).
    destruct Hnew as (u & Hrun & _ & Hemail & _).
    + intros (u & Hu & He). apply list_elem_of_singleton in Hu as ->.
      vm_compute in He. discriminate.
    + exists u. split; [exact Hrun|exact Hemail].
Defined.

(** ** Invariants of the event collection

    Unique ids and well-formedness are what the statements above assume of
    stored events; the handlers keep the first as long as every create gets
    a fresh id, and the second on every successful request. *)

Lemma create_event_unique_ids (payload : EventCreate) (user_id : string)
    (now_us : Z) (event_id : string) (items : list event) :
  unique_ids items → (∀ x, x ∈ items → ev_id x ≠ event_id) →
  unique_ids (create_event payload user_id now_us event_id items).1.
Proof.
  intros Hu Hfresh. unfold create_event.
  destruct (dt_lt _ _) as [[|]|]; cbn [fst]; try done.
  unfold unique_ids in *. rewrite fmap_app. apply NoDup_app.
  split_and!; [done| |apply NoDup_singleton].
  intros i (x & -> & Hx)%list_elem_of_fmap Hi.
  apply list_elem_of_singleton in Hi. by apply (Hfresh x).
Qed.

Lemma update_event_ids (event_id : string) (payload : EventUpdate)
    (user_id : string) (now_us : Z) (items : list event) :
  ev_id <$> (update_event event_id payload user_id now_us items).1
  = ev_id <$> items.
Proof.
  unfold update_event.
  destruct (list_find _ items) as [[idx e]|] eqn:Hf; [|done]. cbv zeta.
  destruct (fromisoformat (ev_start _)); [|done].
  destruct (fromisoformat (ev_end _)); [|done].
  destruct (dt_lt _ _) as [[|]|]; try done. cbn [fst].
  apply list_find_Some in Hf as (Hidx & [Hid _] & _).
  rewrite list_fmap_insert. apply list_insert_id.
  rewrite list_lookup_fmap, Hidx. done.
Qed.

Lemma update_event_unique_ids (event_id : string) (payload : EventUpdate)
    (user_id : string) (now_us : Z) (items : list event) :
  unique_ids items →
  unique_ids (update_event event_id payload user_id now_us items).1.
Proof. unfold unique_ids. by rewrite update_event_ids. Qed.

Lemma delete_event_unique_ids (event_id user_id : string)
    (items : list event) :
  unique_ids items → unique_ids (delete_event event_id user_id items).1.
Proof.
  unfold unique_ids, delete_event. intros Hu.
  destruct (decide _); cbn [fst]; [done|].
  eapply sublist_NoDup; [exact Hu|apply fmap_sublist, sublist_filter].
Qed.

Lemma create_event_well_formed (body : EventBody) (payload : EventCreate)
    (user_id : string) (now_us : Z) (event_id : string)
    (items : list event) (e : event) :
  validate_EventCreate body = Ok payload →
  e ∈ (create_event payload user_id now_us event_id items).1 →
  e ∈ items ∨ well_formed e.
Proof.
  intros (_ & _ & _ & Hr)%validate_EventCreate_ok. unfold create_event.
  destruct (dt_lt _ _) as [[|]|] eqn:Hlt; cbn [fst]; auto.
  intros [He|He%list_elem_of_singleton]%elem_of_app; [by left|right].
  subst e. eexists. split.
  - unfold _event_dict_to_out. cbn. rewrite Hr. reflexivity.
  - cbn. by apply dt_le_not_lt.
Qed.

Lemma update_event_well_formed (event_id : string) (payload : EventUpdate)
    (user_id : string) (now_us : Z) (items items' : list event)
    (out : EventOut) (e : event) :
  update_event event_id payload user_id now_us items = (items', Ok out) →
  e ∈ items' → e ∈ items ∨ well_formed e.
Proof.
  unfold update_event.
  destruct (list_find _ items) as [[idx x]|] eqn:Hf; [|intros [=]].
  cbv zeta.
  destruct (ev_start (merge x payload)) as [[s]|] eqn:Hs; [|intros [=]].
  destruct (ev_end (merge x payload)) as [[t]|] eqn:Ht; [|intros [=]].
  cbn [fromisoformat].
  destruct (dt_lt t s) as [[|]|] eqn:Hlt; intros [= <- Hout].
  intros (j & Hj)%list_elem_of_lookup_1.
  destruct (decide (j = idx)) as [->|Hne].
  - right. apply list_find_Some in Hf as (Hidx & _).
    rewrite list_lookup_insert_eq in Hj by (by eapply lookup_lt_Some).
    injection Hj as <-. exists out. split; [done|].
    apply event_dict_to_out_ok in Hout as (_ & Hs' & Ht' & _).
    unfold set_updated_at in Hs', Ht'. cbn [ev_start ev_end] in Hs', Ht'.
    rewrite Hs in Hs'. rewrite Ht in Ht'.
    injection Hs' as <-. injection Ht' as <-. by apply dt_le_not_lt.
  - left. rewrite list_lookup_insert_ne in Hj by done.
    by eapply list_elem_of_lookup_2.
Qed.

(** ** Scenarios *)

Example day_view_standup :
  day_view (mk_date 2024 1 1) "alice" [standup; review] = Ok [standup_out]
  ∧ day_view (mk_date 2024 1 2) "alice" [standup; review] = Ok [].
Proof. split; by vm_compute. Qed.

Example week_view_standup :
  week_view (mk_date 2024 1 1) "alice" [standup; review] = Ok [standup_out]
  ∧ week_view (mk_date 2024 1 8) "alice" [standup; review] = Ok [].
Proof. split; by vm_compute. Qed.

Example login_any_case :
  login (H := ascii_runtime) "A@X.com" "secret1"
    [mk_user "u1" "a@x.com" "hash:secret1" (isoformat (now_utc 3))]
  = Ok (mk_AuthResponse "token:u1" "bearer").
Proof. by vm_compute. Qed.

(** Outside the hypotheses above: a title set to [null] is merged and
    written before the response model refuses it, after which the record no
    longer reads back; an empty update of it still touches [updated_at]
    alone. *)
Example null_title_is_stored :
  update_event "e1" title_null "alice" 7 [standup]
  = ([standup_untitled], Err InternalError)
  ∧ get_event "e1" "alice" [standup_untitled] = Err InternalError
  ∧ update_event "e1" no_fields "alice" 9 [standup_untitled]
    = ([set_updated_at standup_untitled (isoformat (now_utc 9))],
       Err InternalError).
Proof. split_and!; by vm_compute. Qed.

(** A naive start cannot be compared with the aware bounds of a view. *)
Example naive_event_breaks_views :
  ∃ e out,
    create_event
      (mk_EventCreate "Lunch" None (naive_at 2024 1 1 12 0)
         (naive_at 2024 1 1 13 0) false None) "alice" 0 "e6" []
    = ([e], Ok out)
    ∧ day_view (mk_date 2024 1 1) "alice" [e] = Err InternalError
    ∧ day_view (mk_date 2024 1 1) "alice" [lunch_naive] = Err InternalError.
Proof. eexists _, _. split_and!; by vm_compute. Qed.

(** * Further properties of the handlers *)

(** ** How the writing handlers change the collection *)

Lemma list_find_split {A} (P : A → Prop) `{!∀ x, Decision (P x)}
    (l : list A) (i : nat) (x : A) :
  list_find P l = Some (i, x) →
  ∃ l1 l2, l = l1 ++ x :: l2 ∧ P x ∧ Forall (λ y, ¬ P y) l1
           ∧ ∀ y, <[i := y]> l = l1 ++ y :: l2.
Proof.
  intros (Hi & HP & Hlt)%list_find_Some.
  exists (take i l), (drop (S i) l).
  pose proof (lookup_lt_Some _ _ _ Hi) as Hlen.
  split_and!.
  - by rewrite take_drop_middle.
  - done.
  - apply Forall_forall. intros y (j & Hj)%list_elem_of_lookup_1.
    apply lookup_take_Some in Hj as [Hj Hji]. by eapply Hlt.
  - intros y. by apply insert_take_drop.
Qed.

(** Either nothing is written and an error is answered, or the first record
    matching id and owner passes the range check after the merge and is
    replaced in place. *)
Lemma update_event_cases (event_id : string) (payload : EventUpdate)
    (user_id : string) (now_us : Z) (items : list event) :
  (∃ x, update_event event_id payload user_id now_us items = (items, Err x)
        ∧ x ≠ ValidationError ∧ x ≠ Conflict ∧ x ≠ Unauthorized)
  ∨ (∃ l1 e l2 s t,
       items = l1 ++ e :: l2
       ∧ owned_by event_id user_id e
       ∧ Forall (λ y, ¬ owned_by event_id user_id y) l1
       ∧ ev_start (merge e payload) = Some (isoformat s)
       ∧ ev_end (merge e payload) = Some (isoformat t)
       ∧ dt_lt t s = Some false
       ∧ update_event event_id payload user_id now_us items
         = (l1 ++ set_updated_at (merge e payload)
                    (isoformat (now_utc now_us)) :: l2,
            _event_dict_to_out
              (set_updated_at (merge e payload)
                 (isoformat (now_utc now_us))))).
Proof.
  unfold update_event.
  destruct (list_find _ items) as [[idx e]|] eqn:Hf; [|left; by eexists].
  cbv zeta.
  destruct (ev_start (merge e payload)) as [[s]|] eqn:Hs;
    cbn [fromisoformat]; [|left; by eexists].
  destruct (ev_end (merge e payload)) as [[t]|] eqn:Ht;
    cbn [fromisoformat]; [|left; by eexists].
  destruct (dt_lt t s) as [[|]|] eqn:Hlt; [left; by eexists| |left; by eexists].
  right. apply list_find_split in Hf as (l1 & l2 & -> & Ho & Hl1 & Hins).
  exists l1, e, l2, s, t. rewrite Hins. by split_and!.
Qed.

Lemma create_event_cases (payload : EventCreate) (user_id : string)
    (now_us : Z) (event_id : string) (items : list event) :
  (∃ x, create_event payload user_id now_us event_id items = (items, Err x)
        ∧ (x = InvalidRange ∨ x = InternalError))
  ∨ (∃ e, (create_event payload user_id now_us event_id items).1
          = items ++ [e]
          ∧ (create_event payload user_id now_us event_id items).2
            = _event_dict_to_out e
          ∧ ev_id e = event_id ∧ ev_user_id e = user_id
          ∧ ev_title e = Some (c_title payload)
          ∧ ev_start e = Some (isoformat (c_start payload))
          ∧ ev_end e = Some (isoformat (c_end payload))
          ∧ dt_lt (c_end payload) (c_start payload) = Some false).
Proof.
  unfold create_event.
  destruct (dt_lt _ _) as [[|]|] eqn:Hlt;
    [left; eexists; split; [done|by left]| |
     left; eexists; split; [done|by right]].
  right. eexists. by split_and!.
Qed.

Lemma delete_event_fst (event_id user_id : string) (items : list event) :
  (delete_event event_id user_id items).1
  = filter (λ e, ¬ owned_by event_id user_id e) items.
Proof.
  unfold delete_event. destruct (decide _) as [Hlen|Hlen]; cbn [fst]; [|done].
  symmetry. apply filter_no_match. intros e He Ho.
  assert (Hk : ¬ ¬ owned_by event_id user_id e) by tauto.
  pose proof (length_filter_lt (λ e, ¬ owned_by event_id user_id e)
                items e He Hk). lia.
Qed.

(** ** Isolation of writes between accounts *)

Lemma filter_other_owner (other : string) (l1 l2 : list event) (e e' : event) :
  ev_user_id e' = ev_user_id e →
  _list_events_for_user other (l1 ++ e' :: l2)
  = (if decide (ev_user_id e = other)
     then _list_events_for_user other l1 ++ e'
            :: _list_events_for_user other l2
     else _list_events_for_user other (l1 ++ e :: l2)).
Proof.
  intros Hu. unfold _list_events_for_user. rewrite !filter_app, !filter_cons.
  rewrite Hu. by destruct (decide (ev_user_id e = other)).
Qed.

(** X1.  A write made for one account never shows to another: after
    [create_event], [update_event] or [delete_event] called for [user_id],
    whatever they answer, the records of any other account are the same, and
    so are that account's [list_events], [get_event] and view answers. *)
Theorem writes_leave_other_accounts_alone (user_id other : string)
    (items : list event) :
  other ≠ user_id →
  (∀ payload now_us event_id,
     let items' := (create_event payload user_id now_us event_id items).1 in
     _list_events_for_user other items' = _list_events_for_user other items
     ∧ list_events other items' = list_events other items
     ∧ (∀ i, get_event i other items' = get_event i other items)
     ∧ (∀ s t, view other s t items' = view other s t items))
  ∧ (∀ event_id payload now_us,
       let items' := (update_event event_id payload user_id now_us items).1 in
       _list_events_for_user other items' = _list_events_for_user other items
       ∧ list_events other items' = list_events other items
       ∧ (∀ i, get_event i other items' = get_event i other items)
       ∧ (∀ s t, view other s t items' = view other s t items))
  ∧ (∀ event_id,
       let items' := (delete_event event_id user_id items).1 in
       _list_events_for_user other items' = _list_events_for_user other items
       ∧ list_events other items' = list_events other items
       ∧ (∀ i, get_event i other items' = get_event i other items)
       ∧ (∀ s t, view other s t items' = view other s t items)).
Proof.
  intros Hne.
  assert (Hall : ∀ items',
            _list_events_for_user other items'
            = _list_events_for_user other items →
            _list_events_for_user other items'
            = _list_events_for_user other items
            ∧ list_events other items' = list_events other items
            ∧ (∀ i, get_event i other items' = get_event i other items)
            ∧ (∀ s t, view other s t items' = view other s t items)).
  { intros items' Heq. unfold list_events, get_event, view.
    rewrite Heq. by split_and!. }
  split_and!.
  - intros payload now_us event_id. cbv zeta. apply Hall.
    destruct (create_event_cases payload user_id now_us event_id items)
      as [(x & -> & _)|(e & -> & _ & _ & Hown & _)]; [done|].
    unfold _list_events_for_user.
    rewrite filter_app, filter_cons_False, filter_nil, app_nil_r; [done|].
    rewrite Hown. congruence.
  - intros event_id payload now_us. cbv zeta. apply Hall.
    destruct (update_event_cases event_id payload user_id now_us items)
      as [(x & -> & _)|(l1 & e & l2 & s & t & -> & [_ Hown] & _ & _ & _ & _
                        & ->)]; [done|].
    cbn [fst]. rewrite (filter_other_owner other l1 l2 e) by done.
    rewrite decide_False by congruence. done.
  - intros event_id. cbv zeta. apply Hall. rewrite delete_event_fst.
    unfold _list_events_for_user. rewrite list_filter_filter.
    apply list_filter_iff. intros e. unfold owned_by. split; [tauto|].
    intros Ho. split; [done|]. intros [_ Hu]. congruence.
Qed.

Lemma writes_leave_other_accounts_alone_witness :
  list_events "bob"
    (update_event "e1" (only_title "Daily") "alice" 7 [standup; review]).1
  = list_events "bob" [standup; review]
  ∧ get_event "e2" "bob" (delete_event "e1" "alice" [standup; review]).1
    = get_event "e2" "bob" [standup; review].
Proof.
  destruct (writes_leave_other_accounts_alone "alice" "bob" [standup; review])
    as (_ & Hupd & Hdel).
  - vm_compute. discriminate.
  - split.
    + apply (Hupd "e1" (only_title "Daily") 7).
    + apply (Hdel "e1").
Defined.

(** ** Invariants of the stored events *)

(** X2.  Unique event ids are kept by every writing handler, whatever it
    answers, as long as each create is handed an id no stored event
    carries. *)
Theorem unique_ids_invariant (items : list event) :
  unique_ids items →
  (∀ payload user_id now_us event_id,
     (∀ x, x ∈ items → ev_id x ≠ event_id) →
     unique_ids (create_event payload user_id now_us event_id items).1)
  ∧ (∀ event_id payload user_id now_us,
       unique_ids (update_event event_id payload user_id now_us items).1)
  ∧ (∀ event_id user_id,
       unique_ids (delete_event event_id user_id items).1).
Proof.
  intros Hu. split_and!.
  - intros. by apply create_event_unique_ids.
  - intros. by apply update_event_unique_ids.
  - intros. by apply delete_event_unique_ids.
Qed.

Lemma unique_ids_invariant_witness :
  unique_ids
    (create_event standup_payload "alice" 7 "e7" [standup; review]).1
  ∧ unique_ids
      (update_event "e1" (only_title "Daily") "alice" 7 [standup; review]).1
  ∧ unique_ids (delete_event "e1" "alice" [standup; review]).1.
Proof.
  destruct (unique_ids_invariant [standup; review]) as (Hc & Hu & Hd).
  - unfold unique_ids. apply (bool_decide_unpack _). vm_compute. reflexivity.
  - split_and!; [apply Hc|apply Hu|apply Hd].
    intros x Hx. apply elem_of_cons in Hx as [->|Hx].
    + vm_compute. discriminate.
    + apply list_elem_of_singleton in Hx as ->. vm_compute. discriminate.
Defined.

(** X3.  Start ≤ end is an invariant of the collection: if every stored
    event carries start and end texts with start not after end, so does
    every event stored after [create_event], [update_event] or
    [delete_event], whatever the payload and whatever the handler
    answers. *)
Theorem range_invariant (items : list event) :
  Forall in_range items →
  (∀ payload user_id now_us event_id,
     Forall in_range (create_event payload user_id now_us event_id items).1)
  ∧ (∀ event_id payload user_id now_us,
       Forall in_range
         (update_event event_id payload user_id now_us items).1)
  ∧ (∀ event_id user_id,
       Forall in_range (delete_event event_id user_id items).1).
Proof.
  intros Hall. split_and!.
  - intros payload user_id now_us event_id.
    destruct (create_event_cases payload user_id now_us event_id items)
      as [(x & -> & _)|(e & -> & _ & _ & _ & _ & Hs & Ht & Hlt)]; [done|].
    apply Forall_app. split; [done|]. apply Forall_singleton.
    exists (c_start payload), (c_end payload).
    split_and!; [done..|]. by apply dt_le_not_lt.
  - intros event_id payload user_id now_us.
    destruct (update_event_cases event_id payload user_id now_us items)
      as [(x & -> & _)|(l1 & e & l2 & s & t & -> & _ & _ & Hs & Ht & Hlt
                        & ->)]; [done|].
    cbn [fst]. apply Forall_app in Hall as [H1 H2].
    apply Forall_cons in H2 as [_ H2].
    apply Forall_app. split; [done|]. apply Forall_cons. split; [|done].
    exists s, t. split_and!; [done..|]. by apply dt_le_not_lt.
  - intros event_id user_id. rewrite delete_event_fst.
    apply Forall_forall. intros e [_ He]%list_elem_of_filter.
    by apply (proj1 (Forall_forall _ _) Hall).
Qed.

Lemma range_invariant_witness :
  Forall in_range
    (update_event "e1" (only_start (utc_at 2024 1 1 8 0)) "alice" 7
       [standup; review]).1
  ∧ Forall in_range
      (update_event "e1" (only_start (utc_at 2024 1 1 10 0)) "alice" 7
         [standup; review]).1.
Proof.
  destruct (range_invariant [standup; review]) as (_ & Hu & _).
  - repeat apply Forall_cons_2; [| |apply Forall_nil_2];
      eexists _, _; (split_and!; [reflexivity..|vm_compute; reflexivity]).
  - split; apply Hu.
Defined.

(** X4.  [update_event] never changes which events exist or whose they are:
    whatever the payload and the answer, the collection afterwards lists the
    same ids, owners and creation stamps at the same positions. *)
Theorem update_keeps_identity (event_id : string) (payload : EventUpdate)
    (user_id : string) (now_us : Z) (items : list event) :
  identity_of <$> (update_event event_id payload user_id now_us items).1
  = identity_of <$> items.
Proof.
  destruct (update_event_cases event_id payload user_id now_us items)
    as [(x & -> & _)|(l1 & e & l2 & s & t & -> & _ & _ & _ & _ & _ & ->)];
    [done|].
  cbn [fst]. by rewrite !fmap_app, !fmap_cons.
Qed.

(** ** Reading back after a write *)

(** [get_event] answers from the first record matching id and owner, the
    record [update_event] replaces and [delete_event] removes. *)
Lemma get_event_alt (event_id user_id : string) (items : list event) :
  get_event event_id user_id items
  = from_option _event_dict_to_out (Err NotFound)
      (snd <$> list_find (owned_by event_id user_id) items).
Proof.
  unfold get_event, _list_events_for_user.
  induction items as [|x l IH]; [done|].
  rewrite filter_cons. unfold owned_by in *. cbn [list_find].
  destruct (decide (ev_user_id x = user_id)) as [Hu|Hu].
  - cbn [list_find]. destruct (decide (ev_id x = event_id)) as [Hi|Hi].
    + by rewrite decide_True.
    + rewrite decide_False by tauto.
      destruct (list_find _ (filter _ l)) as [[i e]|];
        destruct (list_find _ l) as [[j e']|]; cbn in *; done.
  - rewrite decide_False by tauto.
    destruct (list_find _ (filter _ l)) as [[i e]|];
      destruct (list_find _ l) as [[j e']|]; cbn in *; done.
Qed.

Lemma find_first_app {A} (P : A → Prop) `{!∀ x, Decision (P x)}
    (l1 l2 : list A) :
  Forall (λ y, ¬ P y) l1 →
  snd <$> list_find P (l1 ++ l2) = snd <$> list_find P l2.
Proof.
  intros Hl1. rewrite list_find_app_r by (by apply list_find_None).
  by destruct (list_find P l2) as [[i x]|].
Qed.

Lemma find_first_skip {A} (P : A → Prop) `{!∀ x, Decision (P x)}
    (l1 l2 : list A) (x x' : A) :
  ¬ P x → ¬ P x' →
  snd <$> list_find P (l1 ++ x' :: l2) = snd <$> list_find P (l1 ++ x :: l2).
Proof.
  intros Hx Hx'. induction l1 as [|y l1 IH]; cbn [app list_find].
  - rewrite !decide_False by done. done.
  - destruct (decide (P y)); [done|].
    destruct (list_find P (l1 ++ x' :: l2)) as [[i a]|];
      destruct (list_find P (l1 ++ x :: l2)) as [[j b]|]; cbn in *; done.
Qed.

Lemma find_first_filter {A} (P Q : A → Prop) `{!∀ x, Decision (P x)}
    `{!∀ x, Decision (Q x)} (l : list A) :
  (∀ x, P x → Q x) →
  snd <$> list_find P (filter Q l) = snd <$> list_find P l.
Proof.
  intros HPQ. induction l as [|y l IH]; [done|].
  rewrite filter_cons. destruct (decide (Q y)) as [Hq|Hq]; cbn [list_find].
  - destruct (decide (P y)); [done|].
    destruct (list_find P (filter Q l)) as [[i a]|];
      destruct (list_find P l) as [[j b]|]; cbn in *; done.
  - rewrite decide_False by (intros Hp; by apply Hq, HPQ).
    destruct (list_find P (filter Q l)) as [[i a]|];
      destruct (list_find P l) as [[j b]|]; cbn in *; done.
Qed.

(** X5.  After a successful [update_event], [get_event] with the same id
    and owner answers the very response the update gave. *)
Theorem update_then_get (event_id : string) (payload : EventUpdate)
    (user_id : string) (now_us : Z) (items items' : list event)
    (out : EventOut) :
  update_event event_id payload user_id now_us items = (items', Ok out) →
  get_event event_id user_id items' = Ok out.
Proof.
  intros Hrun.
  destruct (update_event_cases event_id payload user_id now_us items)
    as [(x & Hx & _)|(l1 & e & l2 & s & t & -> & Ho & Hl1 & _ & _ & _ & Hw)];
    [congruence|].
  rewrite Hw in Hrun. injection Hrun as <- Hout.
  rewrite get_event_alt, find_first_app by done.
  cbn [list_find]. rewrite decide_True by done. done.
Qed.

Lemma update_then_get_witness :
  ∃ items' out,
    update_event "e1" (only_title "Daily") "alice" 7 [standup; review]
    = (items', Ok out)
    ∧ get_event "e1" "alice" items' = Ok out
    ∧ out_title out = "Daily".
Proof.
  eexists _, _. split; [vm_compute; reflexivity|]. split.
  - apply (update_then_get "e1" (only_title "Daily") "alice" 7
             [standup; review]).
    vm_compute. reflexivity.
  - reflexivity.
Defined.

(** X6.  A write aimed at one event leaves every other event readable as
    before: after [update_event] or [delete_event] for [event_id],
    whatever they answer, and after [create_event] storing under
    [event_id], [get_event] for any other id answers, for every account,
    what it answered before. *)
Theorem writes_leave_other_events_alone (event_id other_id : string)
    (items : list event) :
  other_id ≠ event_id →
  (∀ payload user_id now_us u,
     get_event other_id u
       (update_event event_id payload user_id now_us items).1
     = get_event other_id u items)
  ∧ (∀ user_id u,
       get_event other_id u (delete_event event_id user_id items).1
       = get_event other_id u items)
  ∧ (∀ payload user_id now_us u,
       get_event other_id u
         (create_event payload user_id now_us event_id items).1
       = get_event other_id u items).
Proof.
  intros Hne. split_and!.
  - intros payload user_id now_us u.
    destruct (update_event_cases event_id payload user_id now_us items)
      as [(x & -> & _)|(l1 & e & l2 & s & t & -> & [Hid _] & _ & _ & _ & _
                        & ->)]; [done|].
    cbn [fst]. rewrite !get_event_alt. f_equal.
    apply find_first_skip; intros [Hid' _]; cbn in Hid'; congruence.
  - intros user_id u. rewrite delete_event_fst, !get_event_alt. f_equal.
    apply find_first_filter. intros x [Hid _] [Hid' _]. congruence.
  - intros payload user_id now_us u.
    destruct (create_event_cases payload user_id now_us event_id items)
      as [(x & -> & _)|(e & -> & _ & Hid & _)]; [done|].
    rewrite !get_event_alt. f_equal.
    destruct (list_find (owned_by other_id u) items) as [[i a]|] eqn:Hf.
    + by rewrite (list_find_app_l _ _ _ _ _ Hf).
    + pose proof (proj1 (list_find_None _ _) Hf) as Hall.
      rewrite find_first_app by done.
      cbn [list_find]. rewrite decide_False; [done|].
      intros [Hid' _]. congruence.
Qed.

Lemma writes_leave_other_events_alone_witness :
  get_event "e1" "alice" (delete_event "e2" "bob" [standup; review]).1
  = Ok standup_out.
Proof.
  destruct (writes_leave_other_events_alone "e2" "e1" [standup; review])
    as (_ & Hdel & _).
  - vm_compute. discriminate.
  - rewrite Hdel. vm_compute. reflexivity.
Defined.

(** X7.  After [delete_event] for an id and owner, whatever it answered, no
    event is left under that id for that owner: [get_event], a second
    [delete_event] and any [update_event] answer NotFound and write
    nothing. *)
Theorem delete_then_gone (event_id user_id : string) (items : list event) :
  let items' := (delete_event event_id user_id items).1 in
  get_event event_id user_id items' = Err NotFound
  ∧ delete_event event_id user_id items' = (items', Err NotFound)
  ∧ (∀ payload now_us,
       update_event event_id payload user_id now_us items'
       = (items', Err NotFound)).
Proof.
  cbv zeta. rewrite delete_event_fst.
  assert (Hnone : ∀ e, e ∈ filter (λ e, ¬ owned_by event_id user_id e) items →
                       ¬ owned_by event_id user_id e).
  { by intros e [Hk _]%list_elem_of_filter. }
  split_and!.
  - by apply get_event_no_match.
  - by apply delete_event_no_match.
  - intros. by apply update_event_no_match.
Qed.

(** ** Listing *)

Lemma traverse_Ok {A B} (f : A → result B) (l : list A) (r : list B) :
  traverse f l = Ok r ↔ Forall2 (λ a b, f a = Ok b) l r.
Proof.
  revert r. induction l as [|a l IH]; intros r; cbn.
  - split; [intros [= <-]; constructor|by inversion 1].
  - destruct (f a) as [b|x] eqn:Hfa; cbn.
    + destruct (traverse f l) as [bs|x]; cbn.
      * split.
        -- intros [= <-]. constructor; [done|]. by apply IH.
        -- inversion 1 as [|? b' ? bs' Hb Hbs]; subst.
           apply IH in Hbs. congruence.
      * split; [done|]. inversion 1 as [|? b' ? bs' Hb Hbs]; subst.
        by apply IH in Hbs.
    + split; [done|]. inversion 1; congruence.
Qed.

Lemma traverse_events_err (l : list event) (x : error) :
  traverse _event_dict_to_out l = Err x →
  x = InternalError ∧ ∃ e, e ∈ l ∧ ¬ readable e.
Proof.
  induction l as [|a l IH]; cbn; [done|].
  destruct (_event_dict_to_out a) as [b|y] eqn:Ha; cbn.
  - destruct (traverse _event_dict_to_out l) as [bs|y]; cbn; [done|].
    intros [= ->]. destruct (IH eq_refl) as (-> & e & He & Hr).
    split; [done|]. exists e. split; [by right|done].
  - intros [= ->]. split; [by apply event_dict_to_out_err in Ha|].
    exists a. split; [by left|]. intros [out Hout]. congruence.
Qed.

Lemma traverse_events_unreadable (l : list event) (e : event) :
  e ∈ l → ¬ readable e → traverse _event_dict_to_out l = Err InternalError.
Proof.
  intros He Hr.
  destruct (traverse _event_dict_to_out l) as [outs|x] eqn:Ht.
  - exfalso. apply traverse_Ok in Ht.
    apply list_elem_of_lookup_1 in He as [i Hi].
    destruct (Forall2_lookup_l _ _ _ _ _ Ht Hi) as (o & _ & Ho).
    apply Hr. by exists o.
  - by apply traverse_events_err in Ht as [-> _].
Qed.

(** X8.  [list_events] answers one response per stored event of the caller,
    in insertion order, each carrying the caller as owner; it succeeds
    exactly when every stored event of the caller reads back (events of
    other accounts have no say), and otherwise fails with a 500. *)
Theorem list_events_spec (user_id : string) (items : list event) :
  (∀ outs, list_events user_id items = Ok outs →
     out_id <$> outs = ev_id <$> _list_events_for_user user_id items
     ∧ Forall (λ o, out_user_id o = user_id) outs
     ∧ Forall2 (λ e o, _event_dict_to_out e = Ok o)
         (_list_events_for_user user_id items) outs)
  ∧ ((∃ outs, list_events user_id items = Ok outs)
     ↔ ∀ e, e ∈ items → ev_user_id e = user_id → readable e)
  ∧ (∀ x, list_events user_id items = Err x → x = InternalError).
Proof.
  unfold list_events. split_and!.
  - intros outs Hrun%traverse_Ok.
    assert (Hown : Forall (λ e, ev_user_id e = user_id)
                     (_list_events_for_user user_id items)).
    { apply Forall_forall. by intros e [Hu _]%list_elem_of_filter. }
    split_and!; [| |done].
    + induction Hrun as [|e o l k Ho _ IH]; [done|].
      apply Forall_cons in Hown as [_ Hown]. cbn. f_equal; [|by apply IH].
      by apply event_dict_to_out_ok in Ho as (_ & _ & _ & _ & -> & _).
    + induction Hrun as [|e o l k Ho _ IH]; [done|].
      apply Forall_cons in Hown as [Hu Hown]. constructor; [|by apply IH].
      apply event_dict_to_out_ok in Ho as (_ & _ & _ & _ & _ & -> & _). done.
  - split.
    + intros [outs Hrun%traverse_Ok] e He Hu.
      assert (Hin : e ∈ _list_events_for_user user_id items)
        by (by apply list_elem_of_filter).
      apply list_elem_of_lookup_1 in Hin as [i Hi].
      destruct (Forall2_lookup_l _ _ _ _ _ Hrun Hi) as (o & _ & Ho).
      by exists o.
    + intros Hall.
      destruct (traverse _ _) as [outs|x] eqn:Ht; [by exists outs|].
      apply traverse_events_err in Ht
        as (_ & e & [Hu He]%list_elem_of_filter & Hr).
      destruct Hr. by apply Hall.
  - by intros x [-> _]%traverse_events_err.
Qed.

(** ** Null fields in an update *)

(** X9.  An update that sets [start] or [end] to [null] on an existing
    event is answered with a 500 and writes nothing.  An update that sets
    [title] to [null] on an existing event whose merged start is not after
    its merged end is written before it is refused: the answer is a 500,
    the stored event has lost its title, and from then on [get_event] for
    it and [list_events] for its owner answer 500. *)
Theorem update_null_fields (event_id : string) (payload : EventUpdate)
    (user_id : string) (now_us : Z) (items : list event) (idx : nat)
    (e : event) :
  list_find (owned_by event_id user_id) items = Some (idx, e) →
  (u_start payload = Null ∨ u_end payload = Null →
   update_event event_id payload user_id now_us items
   = (items, Err InternalError))
  ∧ (∀ s t,
       u_title payload = Null →
       ev_start (merge e payload) = Some (isoformat s) →
       ev_end (merge e payload) = Some (isoformat t) →
       dt_le s t = Some true →
       ∃ e', update_event event_id payload user_id now_us items
             = (<[idx := e']> items, Err InternalError)
             ∧ <[idx := e']> items !! idx = Some e'
             ∧ ev_title e' = None
             ∧ get_event event_id user_id (<[idx := e']> items)
               = Err InternalError
             ∧ list_events user_id (<[idx := e']> items)
               = Err InternalError).
Proof.
  intros Hf. split.
  - intros Hnull. unfold update_event. rewrite Hf. cbv zeta.
    destruct Hnull as [Hn|Hn].
    + assert (ev_start (merge e payload) = None) as ->
        by (cbn; by rewrite Hn).
      done.
    + destruct (ev_start (merge e payload)) as [[s]|]; cbn [fromisoformat];
        [|done].
      assert (ev_end (merge e payload) = None) as -> by (cbn; by rewrite Hn).
      done.
  - intros s t Hti Hs Ht Hle%dt_le_not_lt.
    set (e' := set_updated_at (merge e payload) (isoformat (now_utc now_us))).
    assert (Hunread : ¬ readable e').
    { intros [out Hout]. apply event_dict_to_out_ok in Hout as [Htitle _].
      unfold e', set_updated_at, merge in Htitle. cbn [ev_title] in Htitle.
      by rewrite Hti in Htitle. }
    assert (Hout : _event_dict_to_out e' = Err InternalError).
    { destruct (_event_dict_to_out e') as [out|x] eqn:Ho.
      - destruct Hunread. by exists out.
      - by apply event_dict_to_out_err in Ho as ->. }
    pose proof Hf as (l1 & l2 & Hitems & Ho & Hl1 & Hins)%list_find_split.
    pose proof Hf as (Hidx & _)%list_find_Some.
    exists e'. split_and!.
    + rewrite (update_event_unfold _ _ _ _ _ idx e s t) by done.
      rewrite Hle. cbv zeta. fold e'. by rewrite Hout.
    + apply list_lookup_insert_eq. by eapply lookup_lt_Some.
    + unfold e', set_updated_at, merge. cbn [ev_title]. by rewrite Hti.
    + rewrite Hins, get_event_alt, find_first_app by done.
      cbn [list_find]. rewrite decide_True by done. done.
    + unfold list_events. apply (traverse_events_unreadable _ e'); [|done].
      apply list_elem_of_filter. split; [by destruct Ho|].
      rewrite Hins. apply elem_of_app. right. by left.
Qed.

Lemma update_null_fields_witness :
  update_event "e1"
    (mk_EventUpdate Unset Unset Null Unset Unset Unset) "alice" 7 [standup]
  = ([standup], Err InternalError)
  ∧ ∃ e', update_event "e1" title_null "alice" 7 [standup]
          = ([e'], Err InternalError)
          ∧ ev_title e' = None
          ∧ list_events "alice" [e'] = Err InternalError.
Proof.
  split.
  - destruct (update_null_fields "e1"
                (mk_EventUpdate Unset Unset Null Unset Unset Unset) "alice" 7
                [standup] 0 standup) as [Hnull _].
    + vm_compute. reflexivity.
    + apply Hnull. left. reflexivity.
  - destruct (update_null_fields "e1" title_null "alice" 7 [standup] 0
                standup) as [_ Htitle].
    + vm_compute. reflexivity.
    + destruct (Htitle (utc_at 2024 1 1 9 0) (utc_at 2024 1 1 9 30))
        as (e' & Hrun & _ & Hti & _ & Hlist).
      * reflexivity.
      * reflexivity.
      * reflexivity.
      * vm_compute. reflexivity.
      * exists e'. split_and!; [exact Hrun|exact Hti|exact Hlist].
Defined.

(** ** What the views answer *)

Lemma view_Ok (user_id : string) (start_dt end_dt : datetime)
    (items : list event) (outs : list EventOut) :
  view user_id start_dt end_dt items = Ok outs ↔
  _range_filter (_list_events_for_user user_id items) start_dt end_dt
  = Ok (filter (λ e, overlaps start_dt end_dt e = true)
          (_list_events_for_user user_id items))
  ∧ Forall2 (λ e o, _event_dict_to_out e = Ok o)
      (filter (λ e, overlaps start_dt end_dt e = true)
         (_list_events_for_user user_id items)) outs.
Proof.
  unfold view.
  destruct (_range_filter _ start_dt end_dt) as [evs|x] eqn:Hrf; cbn.
  - pose proof (range_filter_exact _ _ _ _ Hrf) as ->.
    rewrite traverse_Ok. by split; [|intros [_ ?]].
  - by split; [|intros [? _]].
Qed.

Lemma range_filter_err (events : list event) (start_dt end_dt : datetime)
    (x : error) :
  _range_filter events start_dt end_dt = Err x → x = InternalError.
Proof.
  induction events as [|e rest IH]; cbn; [done|].
  destruct (ev_start e) as [[s]|]; cbn; [|congruence].
  destruct (ev_end e) as [[t]|]; cbn; [|congruence].
  destruct (dt_lt s end_dt) as [[|]|]; [| |congruence]; [|done].
  destruct (dt_gt t start_dt) as [[|]|]; [| |congruence]; [|done].
  destruct (_range_filter rest start_dt end_dt); cbn; [done|].
  intros [= <-]. by apply IH.
Qed.

Lemma view_err (user_id : string) (start_dt end_dt : datetime)
    (items : list event) (x : error) :
  view user_id start_dt end_dt items = Err x → x = InternalError.
Proof.
  unfold view.
  destruct (_range_filter _ start_dt end_dt) as [evs|y] eqn:Hrf; cbn.
  - by intros [-> _]%traverse_events_err.
  - intros [= <-]. by apply range_filter_err in Hrf.
Qed.

(** X10.  What a view answers when it answers: every response belongs to
    the caller, comes from a stored event and overlaps the window
    (start < windowEnd and windowStart < end), and every stored event of the
    caller that overlaps the window is among the responses.  When a view
    fails after its parameters were accepted, it fails with a 500. *)
Theorem view_sound_and_complete (user_id : string) (start_dt end_dt : datetime)
    (items : list event) :
  (∀ outs, view user_id start_dt end_dt items = Ok outs →
     (∀ o, o ∈ outs →
        out_user_id o = user_id
        ∧ dt_lt (out_start o) end_dt = Some true
        ∧ dt_lt start_dt (out_end o) = Some true
        ∧ ∃ e, e ∈ items ∧ _event_dict_to_out e = Ok o)
     ∧ (∀ e, e ∈ items → ev_user_id e = user_id →
          overlaps start_dt end_dt e = true →
          ∃ o, o ∈ outs ∧ _event_dict_to_out e = Ok o))
  ∧ (∀ x, view user_id start_dt end_dt items = Err x → x = InternalError).
Proof.
  split; [|apply view_err].
  intros outs [_ Hall]%view_Ok. split.
  - intros o (i & Hi)%list_elem_of_lookup_1.
    destruct (Forall2_lookup_r _ _ _ _ _ Hall Hi) as (e & He & Ho).
    apply list_elem_of_lookup_2 in He.
    apply list_elem_of_filter in He as [Hov [Hu He]%list_elem_of_filter].
    pose proof Ho as (_ & Hs & Ht & _ & _ & Hown & _)%event_dict_to_out_ok.
    apply overlaps_spec in Hov as (s & t & Hs' & Ht' & Hlt & Hgt).
    rewrite Hs in Hs'. rewrite Ht in Ht'.
    injection Hs' as <-. injection Ht' as <-.
    split_and!; [congruence|done|done|by exists e].
  - intros e He Hu Hov.
    assert (Hin : e ∈ filter (λ e, overlaps start_dt end_dt e = true)
                        (_list_events_for_user user_id items)).
    { apply list_elem_of_filter. split; [done|].
      by apply list_elem_of_filter. }
    apply list_elem_of_lookup_1 in Hin as [i Hi].
    destruct (Forall2_lookup_l _ _ _ _ _ Hall Hi) as (o & Ho & Hout).
    exists o. split; [by eapply list_elem_of_lookup_2|done].
Qed.

Lemma list_events_spec_witness :
  list_events "alice" [standup; review] = Ok [standup_out]
  ∧ out_id <$> [standup_out] = ["e1"].
Proof.
  destruct (list_events_spec "alice" [standup; review]) as (Hok & _ & _).
  assert (Hrun : list_events "alice" [standup; review] = Ok [standup_out])
    by (vm_compute; reflexivity).
  destruct (Hok _ Hrun) as (Hids & _). split; [exact Hrun|exact Hids].
Defined.

Lemma view_sound_and_complete_witness :
  ∃ o, o ∈ [standup_out] ∧ _event_dict_to_out standup = Ok o.
Proof.
  destruct (view_sound_and_complete "alice" (utc_at 2024 1 1 0 0)
              (utc_at 2024 1 2 0 0) [standup; review]) as [Hok _].
  destruct (Hok [standup_out]) as [_ Hcomplete].
  - vm_compute. reflexivity.
  - apply (Hcomplete standup).
    + left.
    + reflexivity.
    + vm_compute. reflexivity.
Defined.

(** ** Nested windows *)

Lemma overlaps_mono (ws we ws' we' : datetime) (e : event) :
  dt_le ws' ws = Some true → dt_le we we' = Some true →
  overlaps ws we e = true → overlaps ws' we' e = true.
Proof.
  intros Hs He (s & t & Hes & Het & Hlt & Hgt)%overlaps_spec.
  apply overlaps_spec. exists s, t. split_and!; [done..| |].
  - unfold dt_lt, dt_le in *.
    destruct (tzinfo s), (tzinfo we), (tzinfo we'); simplify_eq; f_equal; lia.
  - unfold dt_gt, dt_lt, dt_le in *.
    destruct (tzinfo t), (tzinfo ws), (tzinfo ws'); simplify_eq; f_equal; lia.
Qed.

Lemma filter_sublist_mono {A} (P Q : A → Prop) `{!∀ x, Decision (P x)}
    `{!∀ x, Decision (Q x)} (l : list A) :
  (∀ x, P x → Q x) → filter P l `sublist_of` filter Q l.
Proof.
  intros HPQ. induction l as [|x l IH]; [constructor|].
  rewrite !filter_cons. destruct (decide (P x)) as [Hp|Hp].
  - rewrite decide_True by auto. by constructor.
  - destruct (decide (Q x)); [by constructor|done].
Qed.

Lemma Forall2_sublist_out (l l' : list event) (k k' : list EventOut) :
  l `sublist_of` l' →
  Forall2 (λ e o, _event_dict_to_out e = Ok o) l k →
  Forall2 (λ e o, _event_dict_to_out e = Ok o) l' k' →
  k `sublist_of` k'.
Proof.
  intros Hsub. revert k k'.
  induction Hsub as [|x l1 l2 _ IH|x l1 l2 _ IH]; intros k k' Hk Hk'.
  - apply Forall2_nil_inv_l in Hk as ->. apply sublist_nil_l.
  - apply Forall2_cons_inv_l in Hk as (o & k1 & Ho & Hk1 & ->).
    apply Forall2_cons_inv_l in Hk' as (o' & k2 & Ho' & Hk2 & ->).
    assert (o' = o) as -> by congruence. constructor. by apply IH.
  - apply Forall2_cons_inv_l in Hk' as (o' & k2 & Ho' & Hk2 & ->).
    constructor. by apply IH.
Qed.

Lemma view_window_mono (user_id : string) (ws we ws' we' : datetime)
    (items : list event) (outs outs' : list EventOut) :
  dt_le ws' ws = Some true → dt_le we we' = Some true →
  view user_id ws we items = Ok outs →
  view user_id ws' we' items = Ok outs' →
  outs `sublist_of` outs'.
Proof.
  intros Hs He [_ Hall]%view_Ok [_ Hall']%view_Ok.
  eapply Forall2_sublist_out; [|exact Hall|exact Hall'].
  apply filter_sublist_mono. intros e. by apply overlaps_mono.
Qed.

Lemma add_days_inv (dt : datetime) (n : Z) (r : datetime) :
  add_days dt n = Ok r →
  r = mk_datetime (wall dt + n * US_PER_DAY) (tzinfo dt).
Proof.
  unfold add_days. cbv zeta.
  destruct ((0 <=? _) && (_ <? _)); by intros [= <-].
Qed.

(** X11.  The views nest: whatever [day_view] answers for a date is, in the
    same order, part of what [week_view] answers for the week starting that
    date and, for a date of the years 1970..2100, part of what [month_view]
    answers for the month of that date. *)
Theorem day_within_week_and_month (d : date) (user_id : string)
    (items : list event) (outs : list EventOut) :
  day_view d user_id items = Ok outs →
  (∀ outs', week_view d user_id items = Ok outs' → outs `sublist_of` outs')
  ∧ (∀ outs', month_view (year d) (month d) user_id items = Ok outs' →
              outs `sublist_of` outs').
Proof.
  unfold day_view, week_view.
  destruct (valid_date d) eqn:Hvalid; [|done].
  destruct (add_days (midnight_utc d) 1) as [day_end|] eqn:Hday; [|done].
  apply add_days_inv in Hday as ->. cbn [mbind result_bind].
  intros Hrun. split.
  - intros outs'.
    destruct (add_days (midnight_utc d) 7) as [week_end|] eqn:Hweek; [|done].
    apply add_days_inv in Hweek as ->. cbn [mbind result_bind]. intros Hrun'.
    eapply view_window_mono; [| |exact Hrun|exact Hrun'].
    + unfold dt_le. cbn. f_equal. lia.
    + unfold dt_le, US_PER_DAY. cbn. f_equal. lia.
  - intros outs'. unfold month_view.
    destruct ((1970 <=? year d) && _ && _ && _) eqn:Hrange; [|done].
    destruct (month_window (year d) (month d)) as [ms me] eqn:Hwin.
    intros Hrun'.
    unfold valid_date in Hvalid.
    rewrite !andb_true_iff, !Z.leb_le in Hvalid.
    destruct Hvalid as (((((_ & _) & Hm1) & Hm12) & Hd1) & Hdn).
    pose proof (month_window_length (year d) (month d) (conj Hm1 Hm12))
      as Hlen.
    rewrite Hwin in Hlen. cbn [fst snd] in Hlen.
    assert (Hms : ms = midnight_utc (mk_date (year d) (month d) 1)).
    { unfold month_window in Hwin. by injection Hwin as <- _. }
    assert (Hme : tzinfo me = Some 0).
    { unfold month_window in Hwin. injection Hwin as _ <-. done. }
    eapply view_window_mono; [| |exact Hrun|exact Hrun'].
    + rewrite Hms. unfold dt_le, midnight_utc, ymd2ord, US_PER_DAY. cbn.
      f_equal. lia.
    + unfold dt_le. cbn [tzinfo wall]. rewrite Hme. f_equal.
      rewrite Hms in Hlen. unfold midnight_utc, ymd2ord in *. cbn in *.
      unfold US_PER_DAY in *. apply Z.leb_le. nia.
Qed.

Lemma day_within_week_and_month_witness :
  (∀ outs', week_view (mk_date 2024 1 1) "alice" [standup; review] = Ok outs' →
            [standup_out] `sublist_of` outs')
  ∧ (∀ outs', month_view 2024 1 "alice" [standup; review] = Ok outs' →
              [standup_out] `sublist_of` outs').
Proof.
  apply (day_within_week_and_month (mk_date 2024 1 1) "alice"
           [standup; review] [standup_out]).
  vm_compute. reflexivity.
Defined.

(** ** Events without a UTC offset *)

Lemma add_days_err (dt : datetime) (n : Z) (x : error) :
  add_days dt n = Err x → x = InternalError.
Proof.
  unfold add_days. cbv zeta.
  destruct ((0 <=? _) && (_ <? _)); by intros [= <-].
Qed.

Lemma range_filter_Ok_comparable (events : list event)
    (start_dt end_dt : datetime) (out : list event) (e : event) :
  _range_filter events start_dt end_dt = Ok out → e ∈ events →
  ∃ s, ev_start e = Some (isoformat s) ∧ is_Some (dt_lt s end_dt).
Proof.
  revert out. induction events as [|x rest IH]; intros out Hrun He.
  { inversion He. }
  cbn in Hrun.
  destruct (ev_start x) as [[s]|] eqn:Hs; cbn in Hrun; [|done].
  destruct (ev_end x) as [[t]|]; cbn in Hrun; [|done].
  assert (Hrest : is_Some (dt_lt s end_dt)
                  ∧ ∃ out', _range_filter rest start_dt end_dt = Ok out').
  { destruct (dt_lt s end_dt) as [[|]|]; [| |done].
    - split; [done|]. destruct (dt_gt t start_dt) as [[|]|]; [| |done].
      + destruct (_range_filter rest start_dt end_dt) as [o|]; [|done].
        by exists o.
      + by exists out.
    - split; [done|]. by exists out. }
  destruct Hrest as [Hcmp [out' Hout']].
  apply elem_of_cons in He as [->|He].
  - exists s. by rewrite Hs.
  - by eapply IH.
Qed.

Lemma view_naive_start (user_id : string) (start_dt end_dt : datetime)
    (items : list event) (e : event) (s : datetime) :
  e ∈ items → ev_user_id e = user_id →
  ev_start e = Some (isoformat s) → tzinfo s = None →
  is_Some (tzinfo end_dt) →
  view user_id start_dt end_dt items = Err InternalError.
Proof.
  intros He Hu Hs Hnaive [off Hoff].
  destruct (view user_id start_dt end_dt items) as [outs|x] eqn:Hv.
  - exfalso. apply view_Ok in Hv as [Hrf _].
    destruct (range_filter_Ok_comparable _ _ _ _ e Hrf) as (s' & Hs' & Hc).
    { by apply list_elem_of_filter. }
    rewrite Hs in Hs'. injection Hs' as <-.
    unfold dt_lt in Hc. rewrite Hnaive, Hoff in Hc. by destruct Hc.
  - by apply view_err in Hv as ->.
Qed.

(** X12.  [create_event] accepts datetimes without a UTC offset (start not
    after end, reminder within bounds) and stores them as they are; and as
    long as the collection holds an event of the caller whose start has no
    offset, every day, week and month view of the caller, asked with
    accepted parameters, fails with a 500. *)
Theorem naive_start_breaks_views (user_id : string) :
  (∀ payload now_us event_id items,
     tzinfo (c_start payload) = None →
     dt_le (c_start payload) (c_end payload) = Some true →
     reminder_ok (c_reminder_minutes_before payload) = true →
     ∃ e out,
       create_event payload user_id now_us event_id items
       = (items ++ [e], Ok out)
       ∧ ev_user_id e = user_id
       ∧ ev_start e = Some (isoformat (c_start payload)))
  ∧ (∀ items e s,
       e ∈ items → ev_user_id e = user_id →
       ev_start e = Some (isoformat s) → tzinfo s = None →
       (∀ d, valid_date d = true →
             day_view d user_id items = Err InternalError
             ∧ week_view d user_id items = Err InternalError)
       ∧ (∀ y m, 1970 ≤ y ≤ 2100 → 1 ≤ m ≤ 12 →
                 month_view y m user_id items = Err InternalError)).
Proof.
  split.
  - intros payload now_us event_id items _ Hle Hr.
    eexists _, _. split; [by apply create_event_valid|done].
  - intros items e s He Hu Hs Hnaive. split.
    + intros d Hvalid. unfold day_view, week_view. rewrite Hvalid. split.
      * destruct (add_days (midnight_utc d) 1) as [day_end|x] eqn:Hday;
          [|by apply add_days_err in Hday as ->].
        apply add_days_inv in Hday as ->. cbn [mbind result_bind].
        by eapply view_naive_start.
      * destruct (add_days (midnight_utc d) 7) as [week_end|x] eqn:Hweek;
          [|by apply add_days_err in Hweek as ->].
        apply add_days_inv in Hweek as ->. cbn [mbind result_bind].
        by eapply view_naive_start.
    + intros y m Hy Hm. unfold month_view.
      assert ((1970 <=? y) && (y <=? 2100) && (1 <=? m) && (m <=? 12) = true)
        as ->.
      { rewrite !andb_true_iff, !Z.leb_le. lia. }
      destruct (month_window y m) as [ms me] eqn:Hwin.
      eapply view_naive_start; [done..|].
      unfold month_window in Hwin. injection Hwin as _ <-. by eexists.
Qed.

Lemma naive_start_breaks_views_witness :
  month_view 2024 1 "alice" [standup; lunch_naive] = Err InternalError.
Proof.
  destruct (naive_start_breaks_views "alice") as [_ Hviews].
  destruct (Hviews [standup; lunch_naive] lunch_naive
              (naive_at 2024 1 1 12 0)) as [_ Hmonth].
  - right. left.
  - reflexivity.
  - reflexivity.
  - reflexivity.
  - apply Hmonth; lia.
Defined.

(** ** Accounts *)

Lemma get_user_by_email_Some `{Runtime} (email : string) (users : list user)
    (u : user) :
  _get_user_by_email email users = Some u →
  u ∈ users ∧ lower (usr_email u) = lower email.
Proof.
  unfold _get_user_by_email. intros ([i u'] & Hf & ->)%fmap_Some.
  apply list_find_Some in Hf as (Hi & He & _).
  split; [by eapply list_elem_of_lookup_2|exact He].
Qed.

(** X15.  [signup] keeps emails unique up to letter case: if no two stored
    accounts share a lowered email, none do after [signup], whatever it
    answers. *)
Theorem signup_keeps_unique_emails `{Runtime} (payload : SignupRequest)
    (user_id : string) (now_us : Z) (users : list user) :
  unique_emails users →
  unique_emails (signup payload user_id now_us users).1.
Proof.
  intros Hu. unfold signup.
  destruct (_get_user_by_email (su_email payload) users) as [u|] eqn:Hfind;
    [done|].
  apply get_user_by_email_None in Hfind.
  unfold unique_emails, _persist_user in *. cbn [fst].
  rewrite fmap_app. apply NoDup_app. split_and!; [done| |apply NoDup_singleton].
  intros x (u & -> & Hin)%list_elem_of_fmap Hx.
  apply list_elem_of_singleton in Hx. cbn in Hx. apply Hfind. eauto.
Qed.

Lemma signup_keeps_unique_emails_witness :
  unique_emails (H := ascii_runtime)
    (signup (H := ascii_runtime) (mk_SignupRequest "B@x.com" "secret2") "u2" 7
       [mk_user "u1" "a@x.com" "hash:secret1" (isoformat (now_utc 3))]).1.
Proof.
  apply (signup_keeps_unique_emails (H := ascii_runtime)).
  unfold unique_emails. apply (bool_decide_unpack _). vm_compute. reflexivity.
Defined.

(** X16.  Signup, login and [me] compose: when the hasher verifies what it
    hashed, a signup with an email no stored account has (up to letter
    case) and an id no stored account carries lets [login] with that email
    in any letter case and the same password succeed with a token for the
    new account's id, and [me] for that id answers the id and the email as
    signed up; [me] for an id no account carries answers 401. *)
Theorem signup_login_me `{Runtime} (payload : SignupRequest)
    (user_id : string) (now_us : Z) (users : list user) :
  (∀ p, verify_password p (hash_password p) = true) →
  (¬ ∃ u, u ∈ users ∧ lower (usr_email u) = lower (su_email payload)) →
  (∀ u, u ∈ users → usr_id u ≠ user_id) →
  let users' := (signup payload user_id now_us users).1 in
  (∀ email, lower email = lower (su_email payload) →
     login email (su_password payload) users'
     = Ok (mk_AuthResponse (create_access_token user_id) "bearer"))
  ∧ me user_id users' = Ok (user_id, su_email payload)
  ∧ (∀ other, other ≠ user_id → (∀ u, u ∈ users → usr_id u ≠ other) →
     me other users' = Err Unauthorized).
Proof.
  intros Hverify Hnew Hfresh. cbv zeta. unfold signup.
  pose proof (proj2 (get_user_by_email_None _ _) Hnew) as ->.
  cbn [fst]. unfold _persist_user.
  set (u := {| usr_id := user_id; usr_email := su_email payload;
               usr_password_hash := hash_password (su_password payload);
               usr_created_at := isoformat (now_utc now_us) |}).
  split_and!.
  - intros email Hemail. unfold login, _get_user_by_email.
    rewrite find_first_app.
    + cbn [list_find]. rewrite decide_True by (unfold same_email; by cbn).
      cbn. by rewrite Hverify.
    + apply Forall_forall. intros x Hx Hsame. apply Hnew. exists x.
      split; [done|]. unfold same_email in Hsame. congruence.
  - unfold me, _get_user_by_id. rewrite find_first_app.
    + cbn [list_find]. by rewrite decide_True.
    + apply Forall_forall. intros x Hx. by apply Hfresh.
  - intros other Hne Hother. unfold me, _get_user_by_id.
    rewrite find_first_app.
    + cbn [list_find]. rewrite decide_False by (cbn; congruence). done.
    + apply Forall_forall. intros x Hx. by apply Hother.
Qed.

Lemma signup_login_me_witness :
  login (H := ascii_runtime) "B@X.COM" "secret2"
    (signup (H := ascii_runtime) (mk_SignupRequest "b@x.com" "secret2") "u2" 7
       [mk_user "u1" "a@x.com" "hash:secret1" (isoformat (now_utc 3))]).1
  = Ok (mk_AuthResponse "token:u2" "bearer")
  ∧ me "u2"
      (signup (H := ascii_runtime) (mk_SignupRequest "b@x.com" "secret2")
         "u2" 7
         [mk_user "u1" "a@x.com" "hash:secret1" (isoformat (now_utc 3))]).1
    = Ok ("u2", "b@x.com").
Proof.
  destruct (signup_login_me (H := ascii_runtime)
              (mk_SignupRequest "b@x.com" "secret2") "u2" 7
              [mk_user "u1" "a@x.com" "hash:secret1" (isoformat (now_utc 3))])
    as (Hlogin & Hme & _).
  - intros p. cbn. apply bool_decide_eq_true. reflexivity.
  - intros (u & Hu & He). apply list_elem_of_singleton in Hu as ->.
    vm_compute in He. discriminate.
  - intros u Hu. apply list_elem_of_singleton in Hu as ->.
    vm_compute. discriminate.
  - split; [|exact Hme]. apply Hlogin. vm_compute. reflexivity.
Defined.

(** ** Listing after a write *)

Lemma Forall2_filter_out (event_id user_id : string) (l : list event)
    (outs : list EventOut) :
  Forall (λ e, ev_user_id e = user_id) l →
  Forall2 (λ e o, _event_dict_to_out e = Ok o) l outs →
  Forall2 (λ e o, _event_dict_to_out e = Ok o)
    (filter (λ e, ¬ owned_by event_id user_id e) l)
    (filter (λ o, out_id o ≠ event_id) outs).
Proof.
  intros Hown Hall. induction Hall as [|e o l k Ho _ IH]; [constructor|].
  apply Forall_cons in Hown as [Hu Hown].
  rewrite !filter_cons.
  pose proof Ho as (_ & _ & _ & _ & Hid & _)%event_dict_to_out_ok.
  destruct (decide (out_id o ≠ event_id)) as [Hne|Heq].
  - rewrite decide_True by (intros [Hi _]; congruence).
    constructor; [done|by apply IH].
  - rewrite decide_False; [by apply IH|].
    intros Hk. apply Hk. split; [|done].
    destruct (decide (ev_id e = event_id)); [done|]. destruct Heq. congruence.
Qed.

(** X17.  [list_events] follows the writes of its caller: when it answered
    [outs] before, it answers [outs] followed by the new response after a
    successful [create_event] of the caller, and [outs] without the
    responses carrying the deleted id after a [delete_event] of the
    caller. *)
Theorem listing_follows_writes (user_id : string) (items : list event)
    (outs : list EventOut) :
  list_events user_id items = Ok outs →
  (∀ payload now_us event_id items' out,
     create_event payload user_id now_us event_id items = (items', Ok out) →
     list_events user_id items' = Ok (outs ++ [out]))
  ∧ (∀ event_id,
       list_events user_id (delete_event event_id user_id items).1
       = Ok (filter (λ o, out_id o ≠ event_id) outs)).
Proof.
  unfold list_events. intros Hall%traverse_Ok. split.
  - intros payload now_us event_id items' out Hrun.
    destruct (create_event_cases payload user_id now_us event_id items)
      as [(x & Hx & _)|(e & Hw & Hr & _ & Hu & _)]; [congruence|].
    rewrite Hrun in Hw, Hr. cbn [fst snd] in Hw, Hr. subst items'.
    apply traverse_Ok. unfold _list_events_for_user.
    rewrite filter_app, filter_cons_True, filter_nil by done.
    apply Forall2_app; [done|]. by constructor.
  - intros event_id. rewrite delete_event_fst. apply traverse_Ok.
    unfold _list_events_for_user in *.
    assert (filter (λ e, ev_user_id e = user_id)
              (filter (λ e, ¬ owned_by event_id user_id e) items)
            = filter (λ e, ¬ owned_by event_id user_id e)
                (filter (λ e, ev_user_id e = user_id) items)) as ->.
    { rewrite !list_filter_filter. apply list_filter_iff. tauto. }
    apply Forall2_filter_out; [|done].
    apply Forall_forall. by intros e [Hu _]%list_elem_of_filter.
Qed.

Lemma listing_follows_writes_witness :
  list_events "alice" (delete_event "e1" "alice" [standup; review]).1
  = Ok [].
Proof.
  destruct (listing_follows_writes "alice" [standup; review] [standup_out])
    as [_ Hdel].
  - vm_compute. reflexivity.
  - rewrite Hdel. vm_compute. reflexivity.
Defined.

(** ** Comma-separated settings *)

Section ParseCsv.
Context `{Alphabet C}.
Implicit Types (v : list C) (items : list (list C)).

Lemma split_comma_nonempty v : split_comma v ≠ [].
Proof.
  destruct v as [|c rest]; cbn; [done|].
  destruct (decide (c = comma)); [done|].
  by destruct (split_comma rest).
Qed.

Lemma split_comma_pieces v piece :
  piece ∈ split_comma v → comma ∉ piece.
Proof.
  revert piece. induction v as [|c rest IH]; intros piece; cbn.
  - intros ->%list_elem_of_singleton. by intros ?%elem_of_nil.
  - destruct (decide (c = comma)) as [->|Hc].
    + intros [->|Hin]%elem_of_cons; [by intros ?%elem_of_nil|by apply IH].
    + destruct (split_comma rest) as [|p ps] eqn:Hsplit.
      * by destruct (split_comma_nonempty rest).
      * intros [->|Hin]%elem_of_cons.
        -- intros [<-|Hp]%elem_of_cons; [done|].
           by eapply IH; [left|].
        -- apply IH. by right.
Qed.

Lemma split_comma_free v : comma ∉ v → split_comma v = [v].
Proof.
  induction v as [|c rest IH]; [done|]. intros Hv. cbn.
  rewrite decide_False by (intros ->; apply Hv; left).
  rewrite IH; [done|]. intros Hin. apply Hv. by right.
Qed.

Lemma split_comma_app v tail :
  comma ∉ v → split_comma (v ++ comma :: tail) = v :: split_comma tail.
Proof.
  induction v as [|c rest IH]; intros Hv; cbn.
  - by rewrite decide_True.
  - rewrite decide_False by (intros ->; apply Hv; left).
    rewrite IH; [done|]. intros Hin. apply Hv. by right.
Qed.

Lemma split_join items :
  items ≠ [] → Forall (λ v, comma ∉ v) items →
  split_comma (join_comma items) = items.
Proof.
  intros Hne Hall. induction Hall as [|v rest Hv Hrest IH]; [done|].
  destruct rest as [|w rest]; cbn.
  - by apply split_comma_free.
  - rewrite split_comma_app by done. f_equal. by apply IH.
Qed.

Lemma lstrip_suffix v : ∃ dropped, v = dropped ++ lstrip v.
Proof.
  induction v as [|c rest [dropped IH]]; [by exists []|]. cbn.
  destruct (isspace c); [|by exists []].
  exists (c :: dropped). cbn. by f_equal.
Qed.

Lemma lstrip_head v c : head (lstrip v) = Some c → isspace c = false.
Proof.
  induction v as [|a rest IH]; cbn; [done|].
  destruct (isspace a) eqn:Ha; [done|]. cbn. congruence.
Qed.

Lemma lstrip_fixed v :
  (∀ c, head v = Some c → isspace c = false) → lstrip v = v.
Proof.
  destruct v as [|a rest]; cbn; [done|]. intros Hhead.
  by rewrite (Hhead a eq_refl).
Qed.

Lemma rstrip_prefix v : ∃ dropped, v = rstrip v ++ dropped.
Proof.
  induction v as [|c rest [dropped IH]]; [by exists []|]. cbn.
  destruct (rstrip rest) as [|k kept].
  - destruct (isspace c).
    + exists (c :: rest). done.
    + exists dropped. cbn in *. by f_equal.
  - exists dropped. cbn in *. by f_equal.
Qed.

Lemma rstrip_last v c : last (rstrip v) = Some c → isspace c = false.
Proof.
  induction v as [|a rest IH]; cbn; [done|].
  destruct (rstrip rest) as [|k kept] eqn:Hr.
  - destruct (isspace a) eqn:Ha; cbn; [done|congruence].
  - rewrite last_cons. destruct (last (k :: kept)) eqn:Hl;
      [|by apply last_None in Hl].
    intros [= <-]. by apply IH.
Qed.

Lemma rstrip_fixed v :
  (∀ c, last v = Some c → isspace c = false) → rstrip v = v.
Proof.
  induction v as [|a rest IH]; [done|]. intros Hlast. cbn.
  rewrite last_cons in Hlast.
  destruct rest as [|b rest'].
  - cbn in *. by rewrite (Hlast a eq_refl).
  - rewrite IH.
    + done.
    + intros c Hc. apply Hlast. by rewrite Hc.
Qed.

Lemma rstrip_head v c :
  head v = Some c → isspace c = false → head (rstrip v) = Some c.
Proof.
  destruct v as [|a rest]; cbn; [done|]. intros [= ->] Hc.
  destruct (rstrip rest); [by rewrite Hc|done].
Qed.

Lemma strip_free v : comma ∉ v → comma ∉ strip v.
Proof.
  intros Hv Hin. apply Hv. unfold strip in Hin.
  destruct (lstrip_suffix v) as [d1 H1].
  destruct (rstrip_prefix (lstrip v)) as [d2 H2].
  rewrite H1, H2, !elem_of_app. tauto.
Qed.

Lemma strip_clean v : comma ∉ v → strip v ≠ [] → clean_entry (strip v).
Proof.
  intros Hv Hne. split_and!; [done|by apply strip_free| |].
  - unfold strip in *. intros c Hc.
    destruct (lstrip v) as [|a rest] eqn:Hl; [done|].
    assert (Ha : isspace a = false) by (apply (lstrip_head v); by rewrite Hl).
    rewrite (rstrip_head (a :: rest) a eq_refl Ha) in Hc. congruence.
  - unfold strip. apply rstrip_last.
Qed.

Lemma strip_fixed v : clean_entry v → strip v = v.
Proof.
  intros (_ & _ & Hhead & Hlast). unfold strip.
  rewrite lstrip_fixed by done. by apply rstrip_fixed.
Qed.

(** X18.  Every entry [_parse_csv] yields is clean: not empty, free of
    commas, with no whitespace at either end.  Conversely a list of clean
    entries joined with commas parses back to itself, so parsing what was
    parsed and joined again changes nothing; the empty string, and any
    string of commas and whitespace alone, yields no entry. *)
Theorem parse_csv_round_trip :
  (∀ value, Forall clean_entry (_parse_csv value))
  ∧ (∀ items, Forall clean_entry items →
              _parse_csv (join_comma items) = items)
  ∧ (∀ value, _parse_csv (join_comma (_parse_csv value)) = _parse_csv value)
  ∧ (∀ value, Forall (λ c, c = comma ∨ isspace c = true) value →
              _parse_csv value = []).
Proof.
  assert (Hclean : ∀ value, Forall clean_entry (_parse_csv value)).
  { intros value. unfold _parse_csv. apply Forall_fmap, Forall_forall.
    intros v [Hne Hin]%list_elem_of_filter. cbn.
    apply strip_clean; [|done]. by eapply split_comma_pieces. }
  assert (Hjoin : ∀ items, Forall clean_entry items →
                           _parse_csv (join_comma items) = items).
  { intros items Hall. unfold _parse_csv.
    destruct items as [|v rest]; [done|].
    rewrite split_join; [|done|].
    - induction Hall as [|w l Hw _ IH]; [done|].
      rewrite filter_cons, (strip_fixed w Hw).
      rewrite decide_True by (by destruct Hw).
      rewrite fmap_cons, (strip_fixed w Hw). by f_equal.
    - eapply Forall_impl; [exact Hall|]. by intros w (_ & Hw & _). }
  split_and!; [done|done| |].
  - intros value. by apply Hjoin.
  - intros value Hall. unfold _parse_csv.
    assert (Hpieces : Forall (λ v, strip v = []) (split_comma value)).
    { induction Hall as [|c rest Hc _ IH]; cbn.
      - by constructor.
      - destruct (decide (c = comma)) as [->|Hne].
        + by constructor.
        + destruct Hc as [->|Hc]; [done|].
          destruct (split_comma rest) as [|p ps].
          * constructor; [|constructor]. unfold strip. cbn. by rewrite Hc.
          * apply Forall_cons in IH as [Hp Hps]. constructor; [|done].
            unfold strip in *. cbn. by rewrite Hc. }
    induction Hpieces as [|p ps Hp _ IH]; [done|].
    rewrite filter_cons, decide_False by (intros Hx; by apply Hx).
    exact IH.
Qed.

End ParseCsv.

Lemma parse_csv_round_trip_witness :
  _parse_csv (String.list_ascii_of_string " http://a.example , ,b ")
  = [String.list_ascii_of_string "http://a.example";
     String.list_ascii_of_string "b"]
  ∧ _parse_csv
      (join_comma [String.list_ascii_of_string "http://a.example";
                   String.list_ascii_of_string "b"])
    = [String.list_ascii_of_string "http://a.example";
       String.list_ascii_of_string "b"].
Proof.
  assert (Hparse :
    _parse_csv (String.list_ascii_of_string " http://a.example , ,b ")
    = [String.list_ascii_of_string "http://a.example";
       String.list_ascii_of_string "b"]) by (vm_compute; reflexivity).
  split; [exact Hparse|].
  destruct (parse_csv_round_trip (C := Ascii.ascii)) as (Hclean & Hjoin & _).
  apply Hjoin. rewrite <- Hparse. apply Hclean.
Defined.

(** ** The month view at its endpoint *)

Lemma month_view_in_range (year month : Z) (user_id : string)
    (items : list event) :
  1970 ≤ year ≤ 2100 → 1 ≤ month ≤ 12 →
  month_view year month user_id items
  = view user_id (month_window year month).1 (month_window year month).2 items
  ∧ month_events year month user_id items
    = _range_filter (_list_events_for_user user_id items)
        (month_window year month).1 (month_window year month).2.
Proof.
  intros Hy Hm. unfold month_view, month_events.
  assert ((1970 <=? year) && (year <=? 2100) && (1 <=? month)
          && (month <=? 12) = true) as ->.
  { rewrite !andb_true_iff, !Z.leb_le. lia. }
  by destruct (month_window year month).
Qed.

Lemma month_view_out_of_range (year month : Z) (user_id : string)
    (items : list event) :
  ¬ (1970 ≤ year ≤ 2100 ∧ 1 ≤ month ≤ 12) →
  month_view year month user_id items = Err ValidationError
  ∧ month_events year month user_id items = Err ValidationError.
Proof.
  intros Hout. unfold month_view, month_events.
  assert ((1970 <=? year) && (year <=? 2100) && (1 <=? month)
          && (month <=? 12) = false) as ->; [|done].
  apply not_true_is_false. rewrite !andb_true_iff, !Z.leb_le. lia.
Qed.

Lemma month_view_events (year month : Z) (user_id : string)
    (items : list event) :
  month_view year month user_id items
  = (events ← month_events year month user_id items;
     traverse _event_dict_to_out events).
Proof.
  unfold month_view, month_events, view.
  destruct ((1970 <=? year) && _ && _ && _); [|done].
  by destruct (month_window year month).
Qed.

(** Responses of a view come from stored events of the caller that overlap
    the window, and each such event that reads back is among them. *)
Lemma view_response_in (user_id : string) (start_dt end_dt : datetime)
    (items : list event) (outs : list EventOut) (e : event) (o : EventOut) :
  view user_id start_dt end_dt items = Ok outs →
  _event_dict_to_out e = Ok o →
  e ∈ items → ev_user_id e = user_id →
  overlaps start_dt end_dt e = true → o ∈ outs.
Proof.
  intros [_ Hall]%view_Ok Ho He Hu Hov.
  assert (Hin : e ∈ filter (λ e, overlaps start_dt end_dt e = true)
                      (_list_events_for_user user_id items)).
  { apply list_elem_of_filter. split; [done|]. by apply list_elem_of_filter. }
  apply list_elem_of_lookup_1 in Hin as [i Hi].
  destruct (Forall2_lookup_l _ _ _ _ _ Hall Hi) as (o' & Ho' & Hout).
  assert (o' = o) as -> by congruence. by eapply list_elem_of_lookup_2.
Qed.

Lemma view_response_overlaps (user_id : string) (start_dt end_dt : datetime)
    (items : list event) (outs : list EventOut) (o : EventOut) :
  view user_id start_dt end_dt items = Ok outs → o ∈ outs →
  dt_lt (out_start o) end_dt = Some true
  ∧ dt_lt start_dt (out_end o) = Some true.
Proof.
  intros [_ Hall]%view_Ok (i & Hi)%list_elem_of_lookup_1.
  destruct (Forall2_lookup_r _ _ _ _ _ Hall Hi) as (e & He & Ho).
  apply list_elem_of_lookup_2, list_elem_of_filter in He as [Hov _].
  apply event_dict_to_out_ok in Ho as (_ & Hs & Ht & _).
  apply overlaps_spec in Hov as (s & t & Hs' & Ht' & Hlt & Hgt).
  rewrite Hs in Hs'. rewrite Ht in Ht'.
  injection Hs' as <-. injection Ht' as <-. done.
Qed.

(** C5, amended.  For a year in 1970..2100 and a month in 1..12,
    [month_view] filters the caller's events against the window from
    midnight UTC of the first day of the month to midnight UTC of the first
    day of the next month, month 12 of year Y rolling over to month 1 of
    year Y+1; the window is as many days long as the month has and ends
    where the next month's window starts.  An event that starts exactly on
    the first instant of the next month and ends after it is left out of
    what [month_view] answers for the earlier month and is part of what it
    answers for the later month, provided the later month is itself one
    [month_view] accepts: for December 2100 the later month is January
    2101, which [month_view] refuses with a 422.  An event that starts
    before that instant and ends after the start of the month is part of
    the answer for the month, also when it reaches or passes that
    instant. *)
Theorem month_view_window (year month : Z) (user_id : string)
    (items : list event) :
  1970 ≤ year ≤ 2100 → 1 ≤ month ≤ 12 →
  let start_dt := (month_window year month).1 in
  let end_dt := (month_window year month).2 in
  let year' := (next_month year month).1 in
  let month' := (next_month year month).2 in
  month_view year month user_id items = view user_id start_dt end_dt items
  ∧ start_dt = midnight_utc (mk_date year month 1)
  ∧ end_dt = midnight_utc (mk_date year' month' 1)
  ∧ (month = 12 → year' = year + 1 ∧ month' = 1)
  ∧ (month ≠ 12 → year' = year ∧ month' = month + 1)
  ∧ wall end_dt - wall start_dt = days_in_month year month * US_PER_DAY
  ∧ end_dt = (month_window year' month').1
  ∧ (year' ≤ 2100 ↔ ¬ (year = 2100 ∧ month = 12))
  ∧ (2100 < year' →
     month_view year' month' user_id items = Err ValidationError)
  ∧ (∀ e t o,
       e ∈ items → ev_user_id e = user_id →
       ev_start e = Some (isoformat end_dt) →
       ev_end e = Some (isoformat t) →
       dt_lt end_dt t = Some true →
       _event_dict_to_out e = Ok o →
       (∀ outs, month_view year month user_id items = Ok outs → o ∉ outs)
       ∧ (∀ out, month_events year month user_id items = Ok out → e ∉ out)
       ∧ (year' ≤ 2100 →
          (∀ outs, month_view year' month' user_id items = Ok outs →
                   o ∈ outs)
          ∧ (∀ out, month_events year' month' user_id items = Ok out →
                    e ∈ out)))
  ∧ (∀ e s t o,
       e ∈ items → ev_user_id e = user_id →
       ev_start e = Some (isoformat s) →
       ev_end e = Some (isoformat t) →
       dt_lt s end_dt = Some true →
       dt_lt start_dt t = Some true →
       _event_dict_to_out e = Ok o →
       (∀ outs, month_view year month user_id items = Ok outs → o ∈ outs)
       ∧ (∀ out, month_events year month user_id items = Ok out → e ∈ out)).
Proof.
  intros Hy Hm. cbv zeta.
  pose proof (month_window_next year month) as Hnext.
  pose proof (month_view_in_range year month user_id items Hy Hm)
    as [Hview _].
  pose proof (next_month_range year month Hm) as Hm'.
  assert (Hyear' : (next_month year month).1
                   = if month =? 12 then year + 1 else year).
  { unfold next_month. by destruct (month =? 12). }
  split_and!.
  - exact Hview.
  - done.
  - done.
  - intros ->. done.
  - intros Hne. unfold next_month. by destruct (Z.eqb_spec month 12).
  - by apply month_window_length.
  - exact Hnext.
  - rewrite Hyear'. destruct (Z.eqb_spec month 12); lia.
  - intros Hlate. apply month_view_out_of_range. lia.
  - intros e t o He Hown Hs Ht Hlt Ho. split_and!.
    + intros outs Hrun Hin. rewrite Hview in Hrun.
      destruct (view_response_overlaps _ _ _ _ _ _ Hrun Hin) as [Hlt' _].
      pose proof Ho as (_ & Hs' & _)%event_dict_to_out_ok.
      rewrite Hs in Hs'. injection Hs' as Hstart. rewrite <- Hstart in Hlt'.
      by apply dt_lt_irrefl in Hlt'.
    + intros out Hout Hin.
      apply (month_events_exact _ _ _ _ _ e Hout) in Hin as (_ & _ & Hov).
      apply overlaps_spec in Hov as (s' & t' & Hs' & _ & Hlt' & _).
      rewrite Hs in Hs'. injection Hs' as <-.
      by apply dt_lt_irrefl in Hlt'.
    + intros Hin_range.
      assert (Hy' : 1970 ≤ (next_month year month).1 ≤ 2100).
      { split; [|done]. rewrite Hyear'. destruct (month =? 12); lia. }
      assert (Hov : overlaps
                      (month_window (next_month year month).1
                         (next_month year month).2).1
                      (month_window (next_month year month).1
                         (next_month year month).2).2 e = true).
      { apply overlaps_spec. exists (month_window year month).2, t.
        split_and!; [done|done| |].
        - rewrite Hnext at 1.
          by apply (month_window_ordered (next_month year month).1).
        - unfold dt_gt. rewrite Hnext in Hlt. exact Hlt. }
      split.
      * intros outs Hrun.
        rewrite (proj1 (month_view_in_range _ _ user_id items Hy' Hm'))
          in Hrun.
        by eapply view_response_in.
      * intros out Hout.
        by apply (month_events_exact _ _ _ _ _ e Hout).
  - intros e s t o He Hown Hs Ht Hlt Hgt Ho.
    assert (Hov : overlaps (month_window year month).1
                    (month_window year month).2 e = true).
    { apply overlaps_spec. by exists s, t. }
    split.
    + intros outs Hrun. rewrite Hview in Hrun. by eapply view_response_in.
    + intros out Hout. by apply (month_events_exact _ _ _ _ _ e Hout).
Qed.

Lemma month_view_window_witness :
  ∃ o, _event_dict_to_out brunch = Ok o
       ∧ (∀ outs, month_view 2024 12 "alice" [countdown; party; brunch]
                  = Ok outs → o ∉ outs)
       ∧ (∀ outs, month_view 2025 1 "alice" [countdown; party; brunch]
                  = Ok outs → o ∈ outs)
       ∧ month_view 2101 1 "alice" [countdown; party; brunch]
         = Err ValidationError.
Proof.
  eexists. split; [vm_compute; reflexivity|].
  destruct (month_view_window 2024 12 "alice" [countdown; party; brunch])
    as (_ & _ & _ & _ & _ & _ & _ & _ & _ & Hedge & _); [lia..|].
  destruct (month_view_window 2100 12 "alice" [countdown; party; brunch])
    as (_ & _ & _ & _ & _ & _ & _ & _ & Hlate & _); [lia..|].
  edestruct (Hedge brunch (utc_at 2025 1 1 1 0)) as (Hout & _ & Hin).
  - do 2 right. left.
  - reflexivity.
  - vm_compute. reflexivity.
  - reflexivity.
  - vm_compute. reflexivity.
  - reflexivity.
  - split_and!.
    + exact Hout.
    + apply Hin. vm_compute. discriminate.
    + apply Hlate. vm_compute. reflexivity.
Defined.
